(** * PhyloViewer: the tree annotation and interaction engine

    A shallow embedding of the pure core of [PhylocanvasViewer.vue]
    (labels, search, colours, styles, pie aggregation, scale bar, tooltip
    placement and tooltip session), of the side panel ([generateColor],
    the fields, the colour map and the label selection), of the metadata
    parser [parseTsv] and of the header stripping and the tree extraction
    of [PhyloTree.vue].

    Modelling conventions.
    - A JavaScript string is its sequence of UTF-16 code units.
    - A plain object used as a map ([Record<string, T>]) is the list of its
      own properties in creation order; [Object.entries] and friends
      enumerate it in the order of OrdinaryOwnPropertyKeys (array-index
      keys in ascending numeric order, then the other keys in creation
      order).  Names inherited from [Object.prototype] are outside the
      model of the viewer; the parser and the side panel are modelled with
      them ([ObjectPrototype]).
    - JavaScript numbers are IEEE-754 binary64 values ([PrimFloat]) where
      the code computes with fractions; integer-only computations that stay
      below 2^53 are carried out in [Z]; pixel coordinates are exact
      rationals. *)

From Stdlib Require Import ZArith NArith List Bool String Ascii Lia.
From Stdlib Require Import QArith Lqa Floats Sorted FinFun.
Import ListNotations.

Close Scope Q_scope.
Open Scope nat_scope.

(* ================================================================== *)
(** * JavaScript strings *)

Module JSString.

(** A string value: the list of its UTF-16 code units. *)
Definition t := list N.

(** A literal, written with the characters of a Rocq string. *)
Definition lit (s : string) : t := map N_of_ascii (list_ascii_of_string s).

(** Every code unit is below 2^16. *)
Definition wf (s : t) : Prop := Forall (fun c => (c < 65536)%N) s.

Fixpoint eqb (a b : t) : bool :=
  match a, b with
  | [], [] => true
  | x :: a', y :: b' => N.eqb x y && eqb a' b'
  | _, _ => false
  end.

(** Truthiness of a string: the empty string is the only falsy one. *)
Definition truthy (s : t) : bool :=
  match s with [] => false | _ :: _ => true end.

(** [s.split(sep)] for a separator of one code unit. *)
Fixpoint split (sep : N) (s : t) : list t :=
  match s with
  | [] => [[]]
  | c :: s' =>
      if N.eqb c sep then [] :: split sep s'
      else match split sep s' with
           | p :: ps => (c :: p) :: ps
           | [] => [[c]]
           end
  end.

(** [parts.join(sep)]. *)
Fixpoint join (sep : t) (parts : list t) : t :=
  match parts with
  | [] => []
  | [p] => p
  | p :: ps => p ++ sep ++ join sep ps
  end.

(** [s.startsWith(t)]. *)
Fixpoint startsWith (s needle : t) {struct needle} : bool :=
  match needle, s with
  | [], _ => true
  | _ :: _, [] => false
  | y :: needle', x :: s' => N.eqb x y && startsWith s' needle'
  end.

(** [s.includes(needle)]: some position of [s] starts with [needle]. *)
Fixpoint includes (s needle : t) : bool :=
  startsWith s needle ||
  match s with
  | [] => false
  | _ :: s' => includes s' needle
  end.

(** Decimal digits of a natural number, most significant first.  The fuel
    bounds the number of digits. *)
Fixpoint digits_fuel (fuel : nat) (n : N) (acc : t) : t :=
  match fuel with
  | O => acc
  | S fuel' =>
      let acc' := (48 + n mod 10)%N :: acc in
      if (n / 10 =? 0)%N then acc' else digits_fuel fuel' (n / 10)%N acc'
  end.

Definition of_N (n : N) : t := digits_fuel (S (N.to_nat (N.log2 n))) n [].

(** [String(z)] for an integer-valued number [z]. *)
Definition of_Z (z : Z) : t :=
  match z with
  | Z0 => [48%N]
  | Zpos p => of_N (Npos p)
  | Zneg p => 45%N :: of_N (Npos p)
  end.

End JSString.

Definition jsstring : Type := JSString.t.
Definition js : string -> jsstring := JSString.lit.

(* ================================================================== *)
(** * Plain objects used as maps *)

Module JSObject.

(** Own properties in creation order; keys are pairwise distinct in every
    object built with [set] from [empty]. *)
Definition t (V : Type) := list (jsstring * V).

Definition empty {V} : t V := [].

(** [o[k]]: the own property [k], [None] for [undefined]. *)
Fixpoint get {V} (o : t V) (k : jsstring) : option V :=
  match o with
  | [] => None
  | (k', v) :: o' => if JSString.eqb k' k then Some v else get o' k
  end.

(** [o[k] = v]: an existing property keeps its place, a new one is
    created after the others. *)
Fixpoint set {V} (o : t V) (k : jsstring) (v : V) : t V :=
  match o with
  | [] => [(k, v)]
  | (k', v') :: o' =>
      if JSString.eqb k' k then (k', v) :: o' else (k', v') :: set o' k v
  end.

(** The value of a decimal digit code unit. *)
Definition digit (c : N) : option N :=
  if ((48 <=? c) && (c <=? 57))%N then Some (c - 48)%N else None.

Fixpoint digits_value (acc : N) (s : jsstring) : option N :=
  match s with
  | [] => Some acc
  | c :: s' =>
      match digit c with
      | Some d => digits_value (10 * acc + d)%N s'
      | None => None
      end
  end.

(** A property key is an array index when it is the canonical decimal
    numeral of an integer in 0 .. 2^32 - 2. *)
Definition array_index (k : jsstring) : option N :=
  match k with
  | [] => None
  | c :: rest =>
      if N.eqb c 48 && JSString.truthy rest then None
      else match digits_value 0 k with
           | Some n => if (n <=? 4294967294)%N then Some n else None
           | None => None
           end
  end.

Definition is_array_index (k : jsstring) : bool :=
  match array_index k with Some _ => true | None => false end.

(** Insertion of an indexed property into a list sorted by index. *)
Fixpoint insert_by_index {V} (i : N) (kv : jsstring * V)
         (l : list (N * (jsstring * V))) : list (N * (jsstring * V)) :=
  match l with
  | [] => [(i, kv)]
  | (j, kv') :: l' =>
      if (i <=? j)%N then (i, kv) :: l
      else (j, kv') :: insert_by_index i kv l'
  end.

(** The array-index properties of [o], in ascending numeric order. *)
Fixpoint index_entries {V} (o : t V) : list (N * (jsstring * V)) :=
  match o with
  | [] => []
  | (k, v) :: o' =>
      match array_index k with
      | Some i => insert_by_index i (k, v) (index_entries o')
      | None => index_entries o'
      end
  end.

(** The other properties, in creation order. *)
Definition named_entries {V} (o : t V) : list (jsstring * V) :=
  filter (fun kv => negb (is_array_index (fst kv))) o.

(** [Object.entries(o)]. *)
Definition entries {V} (o : t V) : list (jsstring * V) :=
  map snd (index_entries o) ++ named_entries o.

(** [Object.keys(o)] and [Object.values(o)]. *)
Definition keys {V} (o : t V) : list jsstring := map fst (entries o).
Definition values {V} (o : t V) : list V := map snd (entries o).

End JSObject.

(* ================================================================== *)
(** * JavaScript numbers and completions *)

Module JSNumber.

(** [Math.PI], the binary64 value nearest to pi. *)
Definition Math_PI : float := 0x1.921fb54442d18p+1%float.

(** The number value of a non-negative integer (exact below 2^53). *)
Definition of_nat (n : nat) : float :=
  PrimFloat.of_uint63 (Uint63.of_Z (Z.of_nat n)).

(** [Math.floor]. *)
Definition Math_floor (x : float) : float :=
  match Prim2SF x with
  | S754_finite s m e =>
      if (0 <=? e)%Z then x
      else
        let q := (Zpos m / 2 ^ (- e))%Z in
        let exact := (Zpos m mod 2 ^ (- e) =? 0)%Z in
        if s
        then PrimFloat.opp
               (PrimFloat.of_uint63 (Uint63.of_Z (if exact then q else q + 1)))
        else PrimFloat.of_uint63 (Uint63.of_Z q)
  | _ => x
  end.

(** The part of [Math.pow] and [Math.log10] that ECMA-262 leaves to the
    engine ("implementation-approximated"). *)
Record Engine := {
  approx_pow : float -> float -> float;
  approx_log10 : float -> float
}.

(** [Math.pow(b, e)]: the first cases of Number::exponentiate are fixed
    by the standard, the rest is the engine's. *)
Definition Math_pow (E : Engine) (b e : float) : float :=
  if PrimFloat.is_nan e then PrimFloat.nan
  else if PrimFloat.is_zero e then 1%float
  else if PrimFloat.is_nan b then PrimFloat.nan
  else approx_pow E b e.

(** [Math.log10(x)]. *)
Definition Math_log10 (E : Engine) (x : float) : float :=
  if PrimFloat.is_nan x then PrimFloat.nan else approx_log10 E x.

End JSNumber.

(** The outcome of evaluating a call: a value, or a thrown exception. *)
Inductive completion (A : Type) : Type :=
| Normal (a : A)
| Throw.
Arguments Normal {A} a.
Arguments Throw {A}.

Definition bind {A B} (c : completion A) (k : A -> completion B) : completion B :=
  match c with
  | Normal a => k a
  | Throw => Throw
  end.

(** [try { body } catch (err) { handler }]. *)
Definition try_catch {A} (body : completion A) (handler : completion A) : completion A :=
  match body with
  | Normal a => Normal a
  | Throw => handler
  end.

(** What a renderer query hands back. *)
Inductive jsval : Type :=
| JUndefined
| JNumber (x : float).

(** ToNumber. *)
Definition ToNumber (v : jsval) : float :=
  match v with
  | JUndefined => PrimFloat.nan
  | JNumber x => x
  end.

(* ================================================================== *)
(** * The viewer component: data *)

(** A metadata row, [Record<string, string>]. *)
Definition MetadataRecord : Type := JSObject.t jsstring.

(** The component's props. *)
Record Props := {
  metadata : list MetadataRecord;
  colorMap : JSObject.t jsstring;
  selectedField : option jsstring;     (* [null] is [None] *)
  searchTerm : jsstring;
  labelFields : list jsstring
}.

(** A node handed over by the renderer; only the fields the engine reads. *)
#[warnings="-register-all"]
Inductive TreeNode : Type :=
  Node (id : option jsstring) (label : option jsstring) (isLeaf : bool)
       (collapsed : bool) (children : option (list TreeNode)).

Definition node_id (n : TreeNode) : option jsstring :=
  match n with Node i _ _ _ _ => i end.
Definition node_label (n : TreeNode) : option jsstring :=
  match n with Node _ l _ _ _ => l end.
Definition node_isLeaf (n : TreeNode) : bool :=
  match n with Node _ _ b _ _ => b end.
Definition node_collapsed (n : TreeNode) : bool :=
  match n with Node _ _ _ c _ => c end.
Definition node_children (n : TreeNode) : option (list TreeNode) :=
  match n with Node _ _ _ _ c => c end.

(** Induction on trees, with the hypothesis for every child. *)
Section TreeInduction.

Variable Q : TreeNode -> Prop.

Hypothesis step :
  forall id label isLeaf collapsed children,
    match children with
    | Some cs => Forall Q cs
    | None => True
    end ->
    Q (Node id label isLeaf collapsed children).

Fixpoint TreeNode_induction (n : TreeNode) : Q n :=
  match n with
  | Node id label isLeaf collapsed children =>
      step id label isLeaf collapsed children
           (match children
                  return match children with
                         | Some cs => Forall Q cs
                         | None => True
                         end
            with
            | Some cs =>
                (fix all (cs : list TreeNode) : Forall Q cs :=
                   match cs with
                   | [] => Forall_nil Q
                   | c :: rest =>
                       Forall_cons c (TreeNode_induction c) (all rest)
                   end) cs
            | None => I
            end)
  end.

End TreeInduction.





(** One slice of a pie chart. *)
Record PieSegment := {
  startAngle : float;
  endAngle : float;
  color : jsstring;
  value : jsstring;
  count : nat;
  proportion : float
}.

(** The tooltip session ([nodeTooltip]); coordinates are exact rationals. *)
Record Tooltip := {
  visible : bool;
  tip_x : Q;
  tip_y : Q;
  tip_node : option TreeNode;
  nodeType : jsstring;
  isInternal : bool;
  isCollapsed : bool;
  tip_metadata : option MetadataRecord;
  pieChartData : option (list PieSegment);
  descendantCount : nat;
  isDragging : bool;
  dragStartX : Q;
  dragStartY : Q;
  dragOffsetX : Q;
  dragOffsetY : Q
}.



(** The scale bar refs. *)
Record ScaleBar := {
  scaleBarValue : float;
  scaleBarLength : float
}.

(** The renderer's state queries: [None] when the method is not there,
    otherwise the completion of calling it. *)
Record Renderer := {
  getBranchScale : option (completion jsval);
  getZoom : option (completion jsval)
}.

(** Truthiness of an optional string ([undefined], [null] and the empty
    string are falsy). *)
Definition truthy_opt (o : option jsstring) : bool :=
  match o with
  | Some s => JSString.truthy s
  | None => false
  end.

(** [a || b] on optional strings. *)
Definition or_else (a b : option jsstring) : option jsstring :=
  if truthy_opt a then a else b.

(* ================================================================== *)
(** * The viewer component: helper functions of [PhylocanvasViewer.vue] *)

Section Viewer.

(** [String.prototype.toLowerCase], a host built-in. *)
Variable toLowerCase : jsstring -> jsstring.

Variable props : Props.

Definition bar : N := 124.   (* the code unit of '|' *)

(** [nodeName.split('|')[0]]. *)
Definition extractAccessionVersion (nodeName : jsstring) : jsstring :=
  nth 0 (JSString.split bar nodeName) [].

(** [item.accessionVersion === accessionVersion]. *)
Definition has_accession (accessionVersion : jsstring) (item : MetadataRecord) : bool :=
  match JSObject.get item (js "accessionVersion") with
  | Some a => JSString.eqb a accessionVersion
  | None => false
  end.

(** [props.metadata.find(item => item.accessionVersion === accessionVersion)],
    the lookup every helper repeats. *)
Definition metadata_find (accessionVersion : jsstring) : option MetadataRecord :=
  find (has_accession accessionVersion) (metadata props).

(** The body of the [for (const field of props.labelFields)] loop. *)
Definition push_field (metadataItem : MetadataRecord)
           (labelParts : list jsstring) (field : jsstring) : list jsstring :=
  match JSObject.get metadataItem field with
  | Some v => if JSString.truthy v then labelParts ++ [v] else labelParts
  | None => labelParts
  end.

Definition buildNodeLabel (nodeName : jsstring) : jsstring :=
  let accessionVersion := extractAccessionVersion nodeName in
  if (List.length (metadata props) =? 0)%nat then accessionVersion
  else
    match metadata_find accessionVersion with
    | None => accessionVersion
    | Some metadataItem =>
        let labelParts := [accessionVersion] in
        let labelParts :=
          if (0 <? List.length (labelFields props))%nat
          then fold_left (push_field metadataItem) (labelFields props) labelParts
          else labelParts in
        JSString.join (js "|") labelParts
    end.

Definition isNodeMatched (nodeName : jsstring) : bool :=
  let accessionVersion := extractAccessionVersion nodeName in
  if negb (JSString.truthy (searchTerm props))
     || (List.length (metadata props) =? 0)%nat
  then false
  else
    match metadata_find accessionVersion with
    | Some metadataItem =>
        existsb (fun val =>
                   JSString.includes (toLowerCase val)
                                     (toLowerCase (searchTerm props)))
                (JSObject.values metadataItem)
    | None => false
    end.

Definition getNodeColor (nodeName : jsstring) : option jsstring :=
  let accessionVersion := extractAccessionVersion nodeName in
  if negb (truthy_opt (selectedField props))
     || (List.length (JSObject.keys (colorMap props)) =? 0)%nat
     || (List.length (metadata props) =? 0)%nat
  then None
  else
    match metadata_find accessionVersion, selectedField props with
    | Some metadataItem, Some field =>
        match JSObject.get metadataItem field with
        | Some v =>
            if JSString.truthy v
               && truthy_opt (JSObject.get (colorMap props) v)
            then JSObject.get (colorMap props) v
            else None
        | None => None
        end
    | _, _ => None
    end.




(** [getDescendantLeaves]: the leaves below a node, children in order. *)
Fixpoint getDescendantLeaves (node : TreeNode) : list TreeNode :=
  match node with
  | Node _ _ true _ _ => [node]
  | Node _ _ false _ (Some children) =>
      (fix each (children : list TreeNode) (leaves : list TreeNode) :=
         match children with
         | [] => leaves
         | child :: rest => each rest (leaves ++ getDescendantLeaves child)
         end) children []
  | Node _ _ false _ None => []
  end.

(** [leaf.id || leaf.label || ''] as written in [showNodeTooltip] and in
    [calculatePieChartData]. *)
Definition node_name (node : TreeNode) : jsstring :=
  match or_else (or_else (node_id node) (node_label node)) (Some []) with
  | Some s => s
  | None => []
  end.

(** [(counts[value] || 0) + 1]. *)
Definition bump (counts : JSObject.t nat) (v : jsstring) : nat :=
  match JSObject.get counts v with
  | Some n => n + 1
  | None => 0 + 1
  end.

(** The body of [descendants.forEach(leaf => ...)], on the pair
    [(counts, total)]. *)
Definition count_step (acc : JSObject.t nat * nat) (leaf : TreeNode)
  : JSObject.t nat * nat :=
  let (counts, total) := acc in
  let accessionVersion := extractAccessionVersion (node_name leaf) in
  match metadata_find accessionVersion, selectedField props with
  | Some metadataItem, Some field =>
      match JSObject.get metadataItem field with
      | Some v =>
          if JSString.truthy field && JSString.truthy v
          then (JSObject.set counts v (bump counts v), total + 1)
          else (counts, total)
      | None => (counts, total)
      end
  | _, _ => (counts, total)
  end.

(** [props.colorMap[value] || '#cccccc']. *)
Definition segment_color (v : jsstring) : jsstring :=
  match JSObject.get (colorMap props) v with
  | Some c => if JSString.truthy c then c else js "#cccccc"
  | None => js "#cccccc"
  end.

(** The body of [for (const [value, count] of Object.entries(counts))],
    on the pair [(segments, currentAngle)]. *)
Definition segment_step (total : nat) (acc : list PieSegment * float)
           (entry : jsstring * nat) : list PieSegment * float :=
  let (segments, currentAngle) := acc in
  let (v, n) := entry in
  let proportion := (JSNumber.of_nat n / JSNumber.of_nat total)%float in
  let angle := (proportion * 2 * JSNumber.Math_PI)%float in
  (segments ++
     [{| startAngle := currentAngle;
         endAngle := (currentAngle + angle)%float;
         color := segment_color v;
         value := v;
         count := n;
         proportion := proportion |}],
   (currentAngle + angle)%float).

Definition calculatePieChartData (descendants : list TreeNode) : list PieSegment :=
  if negb (truthy_opt (selectedField props))
     || (List.length (metadata props) =? 0)%nat
  then []
  else
    let (counts, total) :=
      fold_left count_step descendants (JSObject.empty, 0) in
    if (total =? 0)%nat then []
    else fst (fold_left (segment_step total) (JSObject.entries counts)
                        ([], 0%float)).



(** [showNodeTooltip(node, canvasX, canvasY)]; [rect] is
    [treeCanvas.value?.getBoundingClientRect()] as [(left, top)]. *)
Definition showNodeTooltip (rect : option (Q * Q)) (node : TreeNode)
           (canvasX canvasY : Q) (tip : Tooltip) : Tooltip :=
  match rect with
  | None => tip
  | Some (rect_left, rect_top) =>
      let globalX := (rect_left + canvasX + 10)%Q in
      let globalY := (rect_top + canvasY - 10)%Q in
      if node_isLeaf node
      then
        {| visible := true; tip_x := globalX; tip_y := globalY;
           tip_node := Some node;
           nodeType := js "Leaf Node";
           isInternal := negb (node_isLeaf node);
           isCollapsed := false;
           tip_metadata :=
             metadata_find (extractAccessionVersion (node_name node));
           pieChartData := None;
           descendantCount := 0;
           isDragging := isDragging tip;
           dragStartX := dragStartX tip; dragStartY := dragStartY tip;
           dragOffsetX := dragOffsetX tip; dragOffsetY := dragOffsetY tip |}
      else
        let descendants := getDescendantLeaves node in
        let pieData := calculatePieChartData descendants in
        {| visible := true; tip_x := globalX; tip_y := globalY;
           tip_node := Some node;
           nodeType := js "Internal Node";
           isInternal := negb (node_isLeaf node);
           isCollapsed := node_collapsed node;
           tip_metadata := None;
           pieChartData :=
             if (0 <? List.length pieData)%nat then Some pieData else None;
           descendantCount := List.length descendants;
           isDragging := isDragging tip;
           dragStartX := dragStartX tip; dragStartY := dragStartY tip;
           dragOffsetX := dragOffsetX tip; dragOffsetY := dragOffsetY tip |}
  end.

End Viewer.

(* ================================================================== *)
(** * The tooltip session *)

Module TooltipSession.

Definition set_drag (tip : Tooltip) (dragging : bool) (sx sy ox oy : Q) : Tooltip :=
  {| visible := visible tip; tip_x := tip_x tip; tip_y := tip_y tip;
     tip_node := tip_node tip; nodeType := nodeType tip;
     isInternal := isInternal tip; isCollapsed := isCollapsed tip;
     tip_metadata := tip_metadata tip; pieChartData := pieChartData tip;
     descendantCount := descendantCount tip;
     isDragging := dragging;
     dragStartX := sx; dragStartY := sy;
     dragOffsetX := ox; dragOffsetY := oy |}.

(** [startDrag(event)]. *)
Definition startDrag (clientX clientY : Q) (tip : Tooltip) : Tooltip :=
  set_drag tip true clientX clientY (dragOffsetX tip) (dragOffsetY tip).

(** [onDrag(event)]. *)
Definition onDrag (clientX clientY : Q) (tip : Tooltip) : Tooltip :=
  if negb (isDragging tip) then tip
  else
    let deltaX := (clientX - dragStartX tip)%Q in
    let deltaY := (clientY - dragStartY tip)%Q in
    set_drag tip (isDragging tip) (dragStartX tip) (dragStartY tip) deltaX deltaY.

(** [stopDrag()]. *)
Definition stopDrag (tip : Tooltip) : Tooltip :=
  if negb (isDragging tip) then tip
  else
    {| visible := visible tip;
       tip_x := (tip_x tip + dragOffsetX tip)%Q;
       tip_y := (tip_y tip + dragOffsetY tip)%Q;
       tip_node := tip_node tip; nodeType := nodeType tip;
       isInternal := isInternal tip; isCollapsed := isCollapsed tip;
       tip_metadata := tip_metadata tip; pieChartData := pieChartData tip;
       descendantCount := descendantCount tip;
       isDragging := false;
       dragStartX := dragStartX tip; dragStartY := dragStartY tip;
       dragOffsetX := 0%Q; dragOffsetY := 0%Q |}.

(** [hideNodeTooltip()]. *)
Definition hideNodeTooltip (tip : Tooltip) : Tooltip :=
  {| visible := false; tip_x := tip_x tip; tip_y := tip_y tip;
     tip_node := None; nodeType := nodeType tip;
     isInternal := isInternal tip; isCollapsed := isCollapsed tip;
     tip_metadata := tip_metadata tip; pieChartData := pieChartData tip;
     descendantCount := descendantCount tip;
     isDragging := false;
     dragStartX := dragStartX tip; dragStartY := dragStartY tip;
     dragOffsetX := 0%Q; dragOffsetY := 0%Q |}.





End TooltipSession.

(* ================================================================== *)
(** * The scale bar *)

Module ScaleBarCalculator.
Import JSNumber.

(** The values written by the [catch] branch; 0.1 is the binary64 value
    nearest to one tenth. *)
Definition fallback : ScaleBar :=
  {| scaleBarValue := 0x1.999999999999ap-4%float;
     scaleBarLength := 100%float |}.

(** [obj.method ? obj.method() : dflt]. *)
Definition call_or (method : option (completion jsval)) (dflt : float)
  : completion jsval :=
  match method with
  | Some call => call
  | None => Normal (JNumber dflt)
  end.

(** The statements inside [try { ... }]. *)
Definition scale_bar_body (E : Engine) (t : Renderer) : completion ScaleBar :=
  bind (call_or (getBranchScale t) 1%float) (fun branchScale =>
  bind (call_or (getZoom t) 0%float) (fun zoom =>
    let currentScale :=
      (ToNumber branchScale * Math_pow E 2%float (ToNumber zoom))%float in
    let targetPixelLength := 100%float in
    let actualDistance := (targetPixelLength / currentScale)%float in
    let magnitude :=
      Math_pow E 10%float (Math_floor (Math_log10 E actualDistance)) in
    let normalized := (actualDistance / magnitude)%float in
    let niceDistance :=
      if (normalized <=? 1)%float then magnitude
      else if (normalized <=? 2)%float then (2 * magnitude)%float
      else if (normalized <=? 5)%float then (5 * magnitude)%float
      else (10 * magnitude)%float in
    Normal {| scaleBarValue := niceDistance;
              scaleBarLength := (niceDistance * currentScale)%float |})).

(** [calculateScaleBar()]: the refs after the call, or the exception that
    escapes it.  [treeInstance] is [None] when [treeInstance.value] is
    falsy. *)
Definition calculateScaleBar (E : Engine) (treeInstance : option Renderer)
           (refs : ScaleBar) : completion ScaleBar :=
  match treeInstance with
  | None => Normal refs
  | Some t => try_catch (scale_bar_body E t) (Normal fallback)
  end.

End ScaleBarCalculator.

(* ================================================================== *)
(** * The side panel: [generateColor] *)

Module SidePanel.

(** ToInt32 on an integer-valued number. *)
Definition ToInt32 (z : Z) : Z :=
  let m := (z mod 2 ^ 32)%Z in
  if (m <? 2 ^ 31)%Z then m else (m - 2 ^ 32)%Z.

(** [a << k] for [0 <= k < 32]. *)
Definition shl (a k : Z) : Z := ToInt32 (Z.shiftl (ToInt32 a) k).

(** [str.charCodeAt(i)] for [i] inside the string. *)
Definition charCodeAt (str : jsstring) (i : nat) : Z := Z.of_N (nth i str 0%N).

(** The value of [hash] when the [for] loop ends.  Sums and differences
    are those of numbers, not of 32-bit integers: only [<<] truncates.
    Every intermediate value is an integer below 2^53 in magnitude for
    strings of up to 2^20 code units, where binary64 arithmetic is
    exact. *)
Definition hash_loop (str : jsstring) : Z :=
  fold_left (fun hash i => (charCodeAt str i + (shl hash 5 - hash))%Z)
            (seq 0 (List.length str)) 0%Z.

(** [generateColor(str)]; [%] is the remainder that takes the sign of the
    dividend. *)
Definition generateColor (str : jsstring) : jsstring :=
  let hash := hash_loop str in
  js "hsl(" ++ JSString.of_Z (Z.rem hash 360) ++ js ", 100%, 75%)".

End SidePanel.

(* ================================================================== *)
(** * Trimming, array membership and the members of [Object.prototype] *)

Module JSText.

(** The WhiteSpace and LineTerminator code points of ECMA-262: TAB, LF,
    VT, FF, CR, SP, NBSP, U+1680, U+2000 to U+200A, LS, PS, U+202F,
    U+205F, U+3000 and U+FEFF. *)
Definition is_space (c : N) : bool :=
  existsb (N.eqb c)
          [9; 10; 11; 12; 13; 32; 160; 5760; 8232; 8233; 8239; 8287;
           12288; 65279]%N
  || ((8192 <=? c) && (c <=? 8202))%N.

(** [s.trimStart()]. *)
Fixpoint trimStart (s : jsstring) : jsstring :=
  match s with
  | [] => []
  | c :: s' => if is_space c then trimStart s' else s
  end.

(** [s.trimEnd()]. *)
Definition trimEnd (s : jsstring) : jsstring := rev (trimStart (rev s)).

(** [s.trim()]. *)
Definition trim (s : jsstring) : jsstring := trimEnd (trimStart s).

(** [array.includes(x)] on an array of strings. *)
Definition Array_includes (array : list jsstring) (x : jsstring) : bool :=
  existsb (JSString.eqb x) array.

End JSText.

Module ObjectPrototype.

(** The property names every plain object inherits in a browser. *)
Definition members : list jsstring :=
  map js [ "constructor"; "hasOwnProperty"; "isPrototypeOf";
           "propertyIsEnumerable"; "toLocaleString"; "toString"; "valueOf";
           "__proto__"; "__defineGetter__"; "__defineSetter__";
           "__lookupGetter__"; "__lookupSetter__" ]%string.

Definition inherits (k : jsstring) : bool :=
  existsb (JSString.eqb k) members.

(** [o[k] = v] for a string [v] on an object created by [{}]: the
    inherited accessor [__proto__] ignores a string, any other name becomes
    or updates an own property. *)
Definition assign (o : JSObject.t jsstring) (k v : jsstring)
  : JSObject.t jsstring :=
  if JSString.eqb k (js "__proto__") then o else JSObject.set o k v.

(** Truthiness of [o[k]] on an object of strings: an own property counts
    by its value, an inherited member is a function or an object. *)
Definition truthy_at (o : JSObject.t jsstring) (k : jsstring) : bool :=
  match JSObject.get o k with
  | Some v => JSString.truthy v
  | None => inherits k
  end.

End ObjectPrototype.

(* ================================================================== *)
(** * The metadata parser, [tsvParser.ts] *)

Module TsvParser.

Definition tab : N := 9.
Definition newline : N := 10.

(** The body of [for (let j = 0; j < headers.length; j++)]. *)
Definition entry_step (headers values : list jsstring)
           (entry : MetadataRecord) (j : nat) : MetadataRecord :=
  ObjectPrototype.assign entry (nth j headers []) (nth j values []).

(** The body of [for (let i = 1; i < lines.length; i++)]. *)
Definition line_step (lines headers : list jsstring)
           (data : list MetadataRecord) (i : nat) : list MetadataRecord :=
  let values := JSString.split tab (nth i lines []) in
  if (List.length values =? List.length headers)%nat
  then
    let entry :=
      fold_left (entry_step headers values)
                (seq 0 (List.length headers)) JSObject.empty in
    data ++ [entry]
  else data.

Definition parseTsv (tsv : jsstring) : list MetadataRecord :=
  let lines := JSString.split newline (JSText.trim tsv) in
  let headers := JSString.split tab (nth 0 lines []) in
  fold_left (line_step lines headers) (seq 1 (List.length lines - 1)) [].

End TsvParser.

(* ================================================================== *)
(** * The tree calculation component, [PhyloTree.vue] *)

Module PhyloTree.

(** The callback of [lines.map] in [stripFastaHeaders]. *)
Definition strip_line (line : jsstring) : jsstring :=
  if JSString.startsWith line (js ">")
  then
    let parts := JSString.split bar (tl line) in   (* line.substring(1) *)
    js ">" ++ nth 0 parts []
  else line.

Definition stripFastaHeaders (fastaContent : jsstring) : jsstring :=
  let lines := JSString.split 10%N fastaContent in
  let strippedLines := map strip_line lines in
  JSString.join [10%N] strippedLines.

(** What awaiting the tool gives [calculateTree]: the text FastTree
    printed, or the message of the error thrown while loading, mounting or
    running it. *)
Inductive ToolRun : Type :=
| Printed (result : jsstring)
| Raised (message : jsstring).

(** The test of the first loop over the lines of the output. *)
Definition is_tree_line (line : jsstring) : bool :=
  JSString.startsWith (JSText.trim line) (js "(")
  && JSString.includes line (js ");").

(** The test of the fallback loop. *)
Definition looks_like_tree (line : jsstring) : bool :=
  JSString.includes line (js "(") && JSString.includes line (js ")")
  && JSString.includes line (js ":").

(** The value of [newickTree] after the two loops. *)
Definition extractNewick (result : jsstring) : jsstring :=
  let lines := JSString.split 10%N result in
  let newickTree :=
    match find is_tree_line lines with
    | Some line => JSText.trim line
    | None => []
    end in
  if negb (JSString.truthy newickTree)
  then match find looks_like_tree lines with
       | Some line => JSText.trim line
       | None => newickTree
       end
  else newickTree.

(** The message the [catch] block stores for an error message. *)
Definition errorMessage (errorMsg : jsstring) : jsstring :=
  if JSString.includes errorMsg (js "FastTree")
  then js "Unable to initialize tree calculation tool. Please check your internet connection and try again."
  else if JSString.includes errorMsg (js "Network")
          || JSString.includes errorMsg (js "network")
  then js "Network error. Please check your internet connection and try again."
  else js "Failed to calculate tree: " ++ errorMsg.

(** What a call leaves behind: the tree it emitted with
    ['tree-calculated'], if any, and the value of the [error] ref. *)
Record Outcome := {
  emitted : option jsstring;
  error : option jsstring
}.

(** [calculateTree()], given the value of the [error] ref before the call
    and what the tool does with the file it is handed. *)
Definition calculateTree (fastaContent : jsstring)
           (tool : jsstring -> ToolRun) (error_before : option jsstring)
  : Outcome :=
  if negb (JSString.truthy fastaContent)
  then {| emitted := None; error := error_before |}
  else
    let strippedFasta := stripFastaHeaders fastaContent in
    match tool strippedFasta with
    | Printed result =>
        let newickTree := extractNewick result in
        if JSString.truthy newickTree
        then {| emitted := Some newickTree; error := None |}
        else {| emitted := None;
                error := Some (errorMessage
                                 (js "No valid Newick tree found in FastTree output")) |}
    | Raised message =>
        {| emitted := None; error := Some (errorMessage message) |}
    end.

End PhyloTree.

(* ================================================================== *)
(** * The side panel: fields, colour map and label selection *)

Module SidePanelEvents.

(** What the component emits. *)
Inductive Emit : Type :=
| update_color_map (map : JSObject.t jsstring)
| update_selected_field (field : option jsstring)
| update_search_term (term : jsstring)
| update_label_fields (fields : list jsstring).

(** The component's refs. *)
Record Refs := {
  selectedField : option jsstring;
  searchTerm : jsstring;
  selectedLabelFields : list jsstring
}.

(** The refs when the component is created. *)
Definition initial : Refs :=
  {| selectedField := None; searchTerm := [];
     selectedLabelFields := [js "SampleID"] |}.

Section Panel.

(** [props.metadata]. *)
Variable metadata : list MetadataRecord.

Definition metadataFields : list jsstring :=
  if (0 <? List.length metadata)%nat
  then JSObject.keys (nth 0 metadata [])
  else [].

Definition availableLabelFields : list jsstring :=
  filter (fun field => negb (JSString.eqb field (js "accessionVersion")))
         metadataFields.

(** The body of [props.metadata.forEach(item => ...)] in
    [handleFieldChange], for a field that every row either owns or does
    not inherit. *)
Definition color_step (field : jsstring) (newColorMap : JSObject.t jsstring)
           (item : MetadataRecord) : JSObject.t jsstring :=
  match JSObject.get item field with
  | Some value =>
      if JSString.truthy value
         && negb (ObjectPrototype.truthy_at newColorMap value)
      then JSObject.set newColorMap value (SidePanel.generateColor value)
      else newColorMap
  | None => newColorMap
  end.

(** [handleFieldChange()]: what it emits. *)
Definition handleFieldChange (refs : Refs) : list Emit :=
  update_selected_field (selectedField refs) ::
  match selectedField refs with
  | Some field =>
      if JSString.truthy field
      then [update_color_map (fold_left (color_step field) metadata JSObject.empty)]
      else [update_color_map JSObject.empty]
  | None => [update_color_map JSObject.empty]
  end.

(** [handleSearchChange()]. *)
Definition handleSearchChange (refs : Refs) : list Emit :=
  [update_search_term (searchTerm refs)].

(** [handleLabelFieldChange(field, checked)]: the refs after the call and
    what it emits. *)
Definition handleLabelFieldChange (field : jsstring) (checked : bool)
           (refs : Refs) : Refs * list Emit :=
  let fields :=
    if checked
    then
      if negb (JSText.Array_includes (selectedLabelFields refs) field)
      then selectedLabelFields refs ++ [field]
      else selectedLabelFields refs
    else filter (fun f => negb (JSString.eqb f field)) (selectedLabelFields refs) in
  ({| selectedField := selectedField refs; searchTerm := searchTerm refs;
      selectedLabelFields := fields |},
   [update_label_fields fields]).

(** The watcher of [props.metadata]. *)
Definition watch_metadata (refs : Refs) : Refs * list Emit :=
  let (refs, emits) :=
    match selectedField refs with
    | Some field =>
        if JSString.truthy field
           && negb (JSText.Array_includes metadataFields field)
        then
          let refs := {| selectedField := None; searchTerm := searchTerm refs;
                         selectedLabelFields := selectedLabelFields refs |} in
          (refs, handleFieldChange refs)
        else (refs, [])
    | None => (refs, [])
    end in
  if (0 <? List.length metadata)%nat
  then
    let hasSampleID := JSText.Array_includes availableLabelFields (js "SampleID") in
    let fields :=
      if hasSampleID
         && negb (JSText.Array_includes (selectedLabelFields refs) (js "SampleID"))
      then [js "SampleID"]
      else selectedLabelFields refs in
    let fields :=
      filter (fun field => JSText.Array_includes availableLabelFields field)
             fields in
    ({| selectedField := selectedField refs; searchTerm := searchTerm refs;
        selectedLabelFields := fields |},
     emits ++ [update_label_fields fields])
  else (refs, emits).

End Panel.

End SidePanelEvents.

(* ================================================================== *)
(** * The events that reach the tooltip session *)

Module TooltipEvents.

(** [toggleNodeCollapse()]; [collapseNode] is [None] when there is no
    renderer or it has no such method, otherwise the completion of the
    call.  The tooltip is hidden by a timer afterwards. *)
Definition toggleNodeCollapse (collapseNode : option (completion unit))
           (tip : Tooltip) : Tooltip :=
  match tip_node tip with
  | None => tip
  | Some node =>
      if node_isLeaf node then tip
      else
        match collapseNode with
        | Some (Normal _) =>
            {| visible := visible tip; tip_x := tip_x tip; tip_y := tip_y tip;
               tip_node := tip_node tip; nodeType := nodeType tip;
               isInternal := isInternal tip;
               isCollapsed := negb (isCollapsed tip);
               tip_metadata := tip_metadata tip;
               pieChartData := pieChartData tip;
               descendantCount := descendantCount tip;
               isDragging := isDragging tip;
               dragStartX := dragStartX tip; dragStartY := dragStartY tip;
               dragOffsetX := dragOffsetX tip; dragOffsetY := dragOffsetY tip |}
        | _ => tip
        end
  end.

(** A click on a node or beside the tree (the [selectNode] the component
    installs), the buttons of the tooltip, the timer set by
    [toggleNodeCollapse], and the mouse events of a drag. *)
Inductive Event : Type :=
| select_node (rect : option (Q * Q)) (node : TreeNode) (canvasX canvasY : Q)
| select_nothing
| close_click
| collapse_click (collapseNode : option (completion unit))
| hide_timer
| header_mousedown (clientX clientY : Q)
| document_mousemove (clientX clientY : Q)
| document_mouseup.

(** The [nodeTooltip] ref when the component is created. *)
Definition initial : Tooltip :=
  {| visible := false; tip_x := 0; tip_y := 0; tip_node := None;
     nodeType := []; isInternal := false; isCollapsed := false;
     tip_metadata := None; pieChartData := None; descendantCount := 0;
     isDragging := false; dragStartX := 0; dragStartY := 0;
     dragOffsetX := 0; dragOffsetY := 0 |}%Q.

Section Dispatch.

Variable props : Props.

(** The handler each event runs.  The document listeners are attached
    while a drag lasts; outside of one [onDrag] and [stopDrag] return at
    once, as they do when they are not attached. *)
Definition dispatch (tip : Tooltip) (e : Event) : Tooltip :=
  match e with
  | select_node rect node canvasX canvasY =>
      showNodeTooltip props rect node canvasX canvasY tip
  | select_nothing => TooltipSession.hideNodeTooltip tip
  | close_click => TooltipSession.hideNodeTooltip tip
  | collapse_click collapseNode => toggleNodeCollapse collapseNode tip
  | hide_timer => TooltipSession.hideNodeTooltip tip
  | header_mousedown clientX clientY =>
      TooltipSession.startDrag clientX clientY tip
  | document_mousemove clientX clientY =>
      TooltipSession.onDrag clientX clientY tip
  | document_mouseup => TooltipSession.stopDrag tip
  end.

(** The session after a sequence of events. *)
Definition run (events : list Event) : Tooltip :=
  fold_left dispatch events initial.

End Dispatch.

End TooltipEvents.

(* ================================================================== *)
(** * Reference definitions used to state the properties *)

Module Spec.

(** The part of [s] before its first ['|'], all of [s] when it has none. *)
Fixpoint accession_prefix (s : jsstring) : jsstring :=
  match s with
  | [] => []
  | c :: s' => if N.eqb c bar then [] else c :: accession_prefix s'
  end.

(** [sub] occurs in [s] as a contiguous run of code units. *)
Definition substring_of (sub s : jsstring) : Prop :=
  exists before after, s = before ++ sub ++ after.

(** [r] is the first record of [rs] whose [accessionVersion] is [a]. *)
Definition first_with_accession (rs : list MetadataRecord) (a : jsstring)
           (r : MetadataRecord) : Prop :=
  exists before after,
    rs = before ++ r :: after /\
    JSObject.get r (js "accessionVersion") = Some a /\
    forall r', In r' before -> JSObject.get r' (js "accessionVersion") <> Some a.



(** The leaves below a node, depth first, children from left to right. *)
Fixpoint leaves_of (node : TreeNode) : list TreeNode :=
  match node with
  | Node _ _ true _ _ => [node]
  | Node _ _ false _ (Some children) => flat_map leaves_of children
  | Node _ _ false _ None => []
  end.

(** The distinct elements of a list, each at its first occurrence. *)
Fixpoint first_seen (l : list jsstring) : list jsstring :=
  match l with
  | [] => []
  | x :: l' => x :: filter (fun y => negb (JSString.eqb x y)) (first_seen l')
  end.

(** The order in which an object enumerates properties created in the
    order [ks]. *)
Definition enumeration_order (ks : list jsstring) : list jsstring :=
  JSObject.keys (map (fun k => (k, tt)) ks).


(** The rolling hash with [<<] as its only 32-bit operation. *)
Definition rolling_hash (s : jsstring) : Z :=
  fold_left (fun h c => (Z.of_N c + (SidePanel.shl h 5 - h))%Z) s 0%Z.

(** The polynomial [c0 * 31^(n-1) + ... + c(n-1)]. *)
Definition poly31 (s : jsstring) : Z :=
  fold_left (fun h c => (31 * h + Z.of_N c)%Z) s 0%Z.





(** The colour the colour map gives to the value [r] has for the selected
    field. *)
Definition record_color (P : Props) (r : MetadataRecord) : option jsstring :=
  match selectedField P with
  | Some field =>
      if JSString.truthy field && negb (List.length (JSObject.keys (colorMap P)) =? 0)
      then match JSObject.get r field with
           | Some v =>
               if JSString.truthy v
               then match JSObject.get (colorMap P) v with
                    | Some c => if JSString.truthy c then Some c else None
                    | None => None
                    end
               else None
           | None => None
           end
      else None
  | None => None
  end.






(** Membership among keys, as a boolean. *)
Definition memb (v : jsstring) (ks : list jsstring) : bool :=
  existsb (JSString.eqb v) ks.


(** A property with its value replaced by its image under [f]. *)
Definition relabel {V W : Type} (f : V -> W) (kv : jsstring * V) : jsstring * W :=
  (fst kv, f (snd kv)).





(** A renderer query throws. *)
Definition query_throws (t : Renderer) : Prop :=
  getBranchScale t = Some Throw \/ getZoom t = Some Throw.

(** A renderer query returns [undefined]. *)
Definition query_undefined (t : Renderer) : Prop :=
  getBranchScale t = Some (Normal JUndefined) \/
  getZoom t = Some (Normal JUndefined).








End Spec.

(* ================================================================== *)
(** * Concrete inputs *)

Module Examples.

Definition record (fields : list (string * string)) : MetadataRecord :=
  map (fun kv => (js (fst kv), js (snd kv))) fields.

Definition leaf (name : string) : TreeNode :=
  Node (Some (js name)) None true false None.

Definition internal (children : list TreeNode) : TreeNode :=
  Node None None false false (Some children).


(** Three samples from two countries. *)
Definition countries : list MetadataRecord :=
  [ record [("accessionVersion", "A1"); ("SampleID", "S1"); ("Country", "USA")];
    record [("accessionVersion", "A2"); ("SampleID", "S2"); ("Country", "USA")];
    record [("accessionVersion", "A3"); ("SampleID", "S3"); ("Country", "Canada")] ]%string.

Definition country_colors : JSObject.t jsstring :=
  [ (js "USA", SidePanel.generateColor (js "USA"));
    (js "Canada", SidePanel.generateColor (js "Canada")) ].

Definition country_props : Props :=
  {| metadata := countries;
     colorMap := country_colors;
     selectedField := Some (js "Country");
     searchTerm := js "usa";
     labelFields := [js "SampleID"; js "Country"] |}.

Definition country_tree : TreeNode :=
  internal [internal [leaf "A1"; leaf "A2"]; leaf "A3"].



(** Samples whose field values are numerals. *)
Definition years : list MetadataRecord :=
  [ record [("accessionVersion", "A1"); ("Year", "2021")];
    record [("accessionVersion", "A2"); ("Year", "2020")];
    record [("accessionVersion", "A3"); ("Year", "2021")] ]%string.







(** An engine; the examples never reach its approximations. *)
Definition engine : JSNumber.Engine :=
  {| JSNumber.approx_pow := fun _ _ => PrimFloat.nan;
     JSNumber.approx_log10 := fun _ => PrimFloat.nan |}.

Definition renderer_undefined : Renderer :=
  {| getBranchScale := Some (Normal JUndefined);
     getZoom := Some (Normal JUndefined) |}.

Definition renderer_throwing : Renderer :=
  {| getBranchScale := Some Throw;
     getZoom := Some (Normal (JNumber 0%float)) |}.

Definition some_refs : ScaleBar :=
  {| scaleBarValue := 5%float; scaleBarLength := 250%float |}.








End Examples.

(* ================================================================== *)
(** * Reference definitions for the parser, the panel and the session *)

Module Reference.

(** A row of cells as a line, and a table as a text. *)
Definition tsv_line (cells : list jsstring) : jsstring :=
  JSString.join [TsvParser.tab] cells.

Definition tsv_text (headers : list jsstring) (rows : list (list jsstring))
  : jsstring :=
  JSString.join [TsvParser.newline] (map tsv_line (headers :: rows)).

(** No cell holds a tab or a line feed. *)
Definition plain_cells (cells : list jsstring) : Prop :=
  Forall (fun cell => ~ In TsvParser.tab cell /\ ~ In TsvParser.newline cell)
         cells.

(** The record the parser builds from a line of cells: the columns are
    assigned from left to right. *)
Definition row_of (headers cells : list jsstring) : MetadataRecord :=
  fold_left (fun entry hv => ObjectPrototype.assign entry (fst hv) (snd hv))
            (combine headers cells) JSObject.empty.

(** A line with as many cells as there are headers. *)
Definition well_formed (headers : list jsstring) (line : jsstring) : bool :=
  (List.length (JSString.split TsvParser.tab line) =? List.length headers)%nat.

Definition not_proto (k : jsstring) : bool :=
  negb (JSString.eqb k (js "__proto__")).

(** The lines of a text as the parser sees them, and its headers. *)
Definition lines_of (tsv : jsstring) : list jsstring :=
  JSString.split TsvParser.newline (JSText.trim tsv).

Definition headers_of (tsv : jsstring) : list jsstring :=
  JSString.split TsvParser.tab (nth 0 (lines_of tsv) []).

(** The cell of a line under the last column with header [h]. *)
Definition last_cell (headers cells : list jsstring) (h : jsstring)
  : option jsstring :=
  JSObject.get (rev (combine headers cells)) h.

(** A FASTA line with its header, if it is one, cut back to the accession:
    ['>'] and what follows it up to the first ['|']. *)
Definition short_header (line : jsstring) : jsstring :=
  match line with
  | c :: name => if N.eqb c 62 then c :: Spec.accession_prefix name else line
  | [] => []
  end.

(** The non-empty values the rows have for a field, row by row. *)
Definition field_values (field : jsstring) (rows : list MetadataRecord)
  : list jsstring :=
  flat_map (fun item => match JSObject.get item field with
                        | Some v => if JSString.truthy v then [v] else []
                        | None => []
                        end) rows.

(** A value that is not the name of a member of [Object.prototype]. *)
Definition plain_name (v : jsstring) : bool :=
  negb (ObjectPrototype.inherits v).

(** An object in which every property holds the colour generated for its
    name. *)
Definition colors_by_name (o : JSObject.t jsstring) : Prop :=
  forall k c, JSObject.get o k = Some c -> c = SidePanel.generateColor k.

(** A session at rest has no pending drag offset, and a session is
    visible exactly when it holds a node. *)
Definition settled (tip : Tooltip) : Prop :=
  (isDragging tip = false ->
   dragOffsetX tip = 0%Q /\ dragOffsetY tip = 0%Q) /\
  (visible tip = true <-> tip_node tip <> None).

End Reference.

(* ================================================================== *)
(** * Further concrete inputs *)

Module Samples.

(** A table with a ragged line and a repeated header. *)
Definition table : jsstring :=
  Reference.tsv_text
    [js "accessionVersion"; js "Country"; js "Country"]
    [ [js "A1"; js "USA"; js "Canada"];
      [js "A2"; js "Peru"];
      [js "A3"; js "Chile"; js "Kenya"] ].

(** A table with distinct headers. *)
Definition sheet_headers : list jsstring :=
  [js "accessionVersion"; js "SampleID"; js "Country"].

Definition sheet_rows : list (list jsstring) :=
  [ [js "A1"; js "S1"; js "USA"];
    [js "A2"; js "S2"; js "USA"];
    [js "A3"; js "S3"; js "Canada"] ].

(** Two sequences, the first with a long header. *)
Definition fasta : jsstring :=
  JSString.join [10%N]
    [js ">A1|S1|USA"; js "ACGT"; js ">A2"; js "AC-T"].

(** A run of the tool that prints a log but no tree. *)
Definition silent_tool (file : jsstring) : PhyloTree.ToolRun :=
  PhyloTree.Printed (JSString.join [10%N] [js "FastTree 2.1.11"; js "done"]).

(** A run of the tool that prints a log line and a tree. *)
Definition working_tool (file : jsstring) : PhyloTree.ToolRun :=
  PhyloTree.Printed
    (JSString.join [10%N] [js "Ignored (1 of 2): x"; js " (A1:0.1,A2:0.2);"; []]).

(** The side panel after the user picked Country. *)
Definition country_refs : SidePanelEvents.Refs :=
  {| SidePanelEvents.selectedField := Some (js "Country");
     SidePanelEvents.searchTerm := [];
     SidePanelEvents.selectedLabelFields := [js "SampleID"] |}.

End Samples.

(* ================================================================== *)
(** * Proofs *)

Import Spec.

(* ================================================================== *)
(** * Strings *)

Section StringFacts.

Lemma jseqb_eq (a b : jsstring) : JSString.eqb a b = true <-> a = b.
Proof.
  revert b; induction a as [|x a IH]; intros [|y b]; simpl; split;
    try discriminate; try reflexivity.
  - intros H. apply andb_true_iff in H as [Hx Hab].
    apply N.eqb_eq in Hx. apply IH in Hab. congruence.
  - intros H. injection H as -> ->. rewrite N.eqb_refl. simpl.
    now apply IH.
Qed.

Lemma jseqb_refl (a : jsstring) : JSString.eqb a a = true.
Proof. now apply jseqb_eq. Qed.

Lemma jseqb_neq (a b : jsstring) : JSString.eqb a b = false <-> a <> b.
Proof.
  split.
  - intros H E. apply jseqb_eq in E. congruence.
  - intros H. destruct (JSString.eqb a b) eqn:E; [|reflexivity].
    apply jseqb_eq in E. contradiction.
Qed.

Lemma jseqb_sym (a b : jsstring) : JSString.eqb a b = JSString.eqb b a.
Proof.
  destruct (JSString.eqb a b) eqn:E.
  - apply jseqb_eq in E. subst. symmetry. apply jseqb_refl.
  - symmetry. apply jseqb_neq. apply jseqb_neq in E. congruence.
Qed.

Lemma truthy_nonempty (s : jsstring) : JSString.truthy s = true <-> s <> [].
Proof. destruct s; simpl; split; congruence. Qed.

(** [split] never returns the empty array. *)
Lemma split_head (sep : N) (s : jsstring) :
  exists p ps, JSString.split sep s = p :: ps.
Proof.
  induction s as [|c s IH]; simpl.
  - eauto.
  - destruct (N.eqb c sep); [eauto|].
    destruct IH as (p & ps & ->). eauto.
Qed.

(** The first piece of [split] is the prefix before the separator. *)
Lemma extractAccessionVersion_prefix (s : jsstring) :
  extractAccessionVersion s = Spec.accession_prefix s.
Proof.
  unfold extractAccessionVersion.
  induction s as [|c s IH]; simpl; [reflexivity|].
  destruct (N.eqb c bar); [reflexivity|].
  destruct (split_head bar s) as (p & ps & E).
  rewrite E in *. simpl in *. now rewrite IH.
Qed.

Lemma accession_prefix_no_bar (s : jsstring) :
  ~ In bar s -> Spec.accession_prefix s = s.
Proof.
  induction s as [|c s IH]; simpl; intros H; [reflexivity|].
  destruct (N.eqb c bar) eqn:E.
  - apply N.eqb_eq in E. exfalso. apply H. now left.
  - f_equal. apply IH. intros Hin. apply H. now right.
Qed.


Lemma accession_prefix_clean (s : jsstring) :
  ~ In bar (Spec.accession_prefix s).
Proof.
  induction s as [|c s IH]; simpl; [tauto|].
  destruct (N.eqb c bar) eqn:E; simpl; [tauto|].
  intros [H|H]; [|tauto]. subst. now rewrite N.eqb_refl in E.
Qed.


Lemma startsWith_app (p rest : jsstring) :
  JSString.startsWith (p ++ rest) p = true.
Proof.
  induction p as [|c p IH]; simpl; [reflexivity|].
  now rewrite N.eqb_refl.
Qed.

Lemma startsWith_spec (s needle : jsstring) :
  JSString.startsWith s needle = true <-> exists rest, s = needle ++ rest.
Proof.
  revert s; induction needle as [|y needle IH]; intros s; simpl.
  - split; eauto.
  - destruct s as [|x s]; simpl.
    + split; [discriminate|]. intros (rest & H). discriminate.
    + rewrite andb_true_iff, N.eqb_eq, IH. split.
      * intros (-> & rest & ->). eauto.
      * intros (rest & H). injection H as -> ->. eauto.
Qed.

(** [includes] is the substring relation. *)
Lemma includes_spec (s needle : jsstring) :
  JSString.includes s needle = true <-> Spec.substring_of needle s.
Proof.
  unfold Spec.substring_of.
  induction s as [|c s IH]; simpl.
  - rewrite orb_false_r, startsWith_spec. split.
    + intros (rest & H). exists [], rest. exact H.
    + intros (b & a & H). destruct b; simpl in H.
      * eauto.
      * discriminate.
  - rewrite orb_true_iff, startsWith_spec, IH. split.
    + intros [(rest & H)|(b & a & H)].
      * exists [], rest. exact H.
      * exists (c :: b), a. simpl. now rewrite H.
    + intros (b & a & H). destruct b as [|c' b]; simpl in H.
      * left. eauto.
      * right. injection H as -> H. eauto.
Qed.

End StringFacts.

(* ================================================================== *)
(** * Objects *)

Section ObjectFacts.

Context {V : Type}.

Lemma get_set (o : JSObject.t V) (k k' : jsstring) (v : V) :
  JSObject.get (JSObject.set o k v) k' =
  if JSString.eqb k k' then Some v else JSObject.get o k'.
Proof.
  induction o as [|[k0 v0] o IH]; simpl.
  - reflexivity.
  - destruct (JSString.eqb k0 k) eqn:E0; simpl.
    + apply jseqb_eq in E0. subst k0.
      destruct (JSString.eqb k k'); reflexivity.
    + rewrite IH. destruct (JSString.eqb k0 k') eqn:E1; [|reflexivity].
      apply jseqb_eq in E1. subst k0. now rewrite jseqb_sym, E0.
Qed.

Lemma get_set_same (o : JSObject.t V) (k : jsstring) (v : V) :
  JSObject.get (JSObject.set o k v) k = Some v.
Proof. now rewrite get_set, jseqb_refl. Qed.

Lemma get_some_in (o : JSObject.t V) (k : jsstring) (v : V) :
  JSObject.get o k = Some v -> In (k, v) o.
Proof.
  induction o as [|[k0 v0] o IH]; simpl; [discriminate|].
  destruct (JSString.eqb k0 k) eqn:E.
  - apply jseqb_eq in E. intros H. injection H as ->. subst. now left.
  - intros H. right. now apply IH.
Qed.

(** The keys after an assignment: unchanged when the key is there,
    one more at the end when it is new. *)
Lemma keys_set (o : JSObject.t V) (k : jsstring) (v : V) :
  map fst (JSObject.set o k v) =
  match JSObject.get o k with
  | Some _ => map fst o
  | None => map fst o ++ [k]
  end.
Proof.
  induction o as [|[k0 v0] o IH]; simpl; [reflexivity|].
  destruct (JSString.eqb k0 k) eqn:E; simpl; [reflexivity|].
  rewrite IH. now destruct (JSObject.get o k).
Qed.

Lemma get_none_keys (o : JSObject.t V) (k : jsstring) :
  JSObject.get o k = None <-> ~ In k (map fst o).
Proof.
  induction o as [|[k0 v0] o IH]; simpl; [tauto|].
  destruct (JSString.eqb k0 k) eqn:E.
  - apply jseqb_eq in E. split; [discriminate|]. intros H. exfalso. auto.
  - apply jseqb_neq in E. rewrite IH. tauto.
Qed.

Lemma in_insert_by_index (i : N) (kv : jsstring * V) l x :
  In x (JSObject.insert_by_index i kv l) <-> x = (i, kv) \/ In x l.
Proof.
  induction l as [|[j kv'] l IH]; simpl.
  - intuition congruence.
  - destruct (i <=? j)%N; simpl; [intuition congruence|].
    rewrite IH. intuition congruence.
Qed.

Lemma in_index_entries (o : JSObject.t V) (kv : jsstring * V) :
  In kv (map snd (JSObject.index_entries o)) <->
  In kv o /\ JSObject.is_array_index (fst kv) = true.
Proof.
  unfold JSObject.is_array_index.
  induction o as [|[k v] o IH]; simpl; [tauto|].
  destruct (JSObject.array_index k) as [i|] eqn:E.
  - rewrite in_map_iff. split.
    + intros ([j x] & <- & H). simpl. apply in_insert_by_index in H.
      destruct H as [H|H].
      * injection H as -> ->. simpl. rewrite E. auto.
      * assert (Hx : In x (map snd (JSObject.index_entries o)))
          by (apply in_map_iff; exists (j, x); auto).
        apply IH in Hx. tauto.
    + intros ([H|H] & Hi).
      * subst kv. exists (i, (k, v)). split; [reflexivity|].
        apply in_insert_by_index. now left.
      * assert (Hx : In kv (map snd (JSObject.index_entries o)))
          by (apply IH; auto).
        apply in_map_iff in Hx as ([j x] & <- & Hx).
        exists (j, x). split; [reflexivity|].
        apply in_insert_by_index. now right.
  - rewrite IH. split.
    + tauto.
    + intros ([H|H] & Hi); [|tauto].
      subst kv. simpl in Hi. now rewrite E in Hi.
Qed.

(** [Object.entries] lists exactly the own properties. *)
Lemma in_entries (o : JSObject.t V) (kv : jsstring * V) :
  In kv (JSObject.entries o) <-> In kv o.
Proof.
  unfold JSObject.entries, JSObject.named_entries.
  rewrite in_app_iff, in_index_entries, filter_In, negb_true_iff.
  destruct (JSObject.is_array_index (fst kv)); intuition congruence.
Qed.


End ObjectFacts.

(* ================================================================== *)
(** * The metadata lookup *)

Section Lookup.

Variable P : Props.

Lemma has_accession_true (a : jsstring) (r : MetadataRecord) :
  has_accession a r = true <->
  JSObject.get r (js "accessionVersion") = Some a.
Proof.
  unfold has_accession.
  destruct (JSObject.get r (js "accessionVersion")) as [a'|].
  - rewrite jseqb_eq. split; congruence.
  - split; discriminate.
Qed.

Lemma has_accession_false (a : jsstring) (r : MetadataRecord) :
  has_accession a r = false <->
  JSObject.get r (js "accessionVersion") <> Some a.
Proof.
  rewrite <- has_accession_true.
  destruct (has_accession a r); split; congruence.
Qed.

Lemma find_first (rs : list MetadataRecord) (a : jsstring) (r : MetadataRecord) :
  find (has_accession a) rs = Some r <-> Spec.first_with_accession rs a r.
Proof.
  unfold Spec.first_with_accession.
  induction rs as [|r0 rs IH]; simpl.
  - split; [discriminate|]. intros (b & t & H & _). now destruct b.
  - destruct (has_accession a r0) eqn:E.
    + split.
      * intros H. injection H as ->. exists [], rs.
        repeat split; [now apply has_accession_true|]. intros r' [].
      * intros (b & t & H & Hr & Hb). destruct b as [|r1 b]; simpl in H.
        -- now injection H as ->.
        -- injection H as -> ->. exfalso.
           apply (Hb r1); [now left|]. now apply has_accession_true.
    + rewrite IH. split.
      * intros (b & t & -> & Hr & Hb). exists (r0 :: b), t.
        repeat split; [exact Hr|]. intros r' [<-|H]; [|now apply Hb].
        now apply has_accession_false.
      * intros (b & t & H & Hr & Hb). destruct b as [|r1 b]; simpl in H.
        -- injection H as -> ->. apply has_accession_true in Hr. congruence.
        -- injection H as -> ->. exists b, t. repeat split; [exact Hr|].
           intros r' H. apply Hb. now right.
Qed.

(** The lookup resolves to the first record with the accession. *)
Lemma metadata_find_first (a : jsstring) (r : MetadataRecord) :
  metadata_find P a = Some r <-> Spec.first_with_accession (metadata P) a r.
Proof. apply find_first. Qed.




End Lookup.

(* ================================================================== *)
(** * Labels *)



(* ================================================================== *)
(** * Search *)

Section Search.

Variable toLowerCase : jsstring -> jsstring.
Variable P : Props.




End Search.



(* ================================================================== *)
(** * Duplicate accessions *)

Section Duplicates.

Variable toLowerCase : jsstring -> jsstring.
Variable P : Props.

Lemma getNodeColor_cases (id : jsstring) :
  getNodeColor P id =
  match metadata_find P (Spec.accession_prefix id) with
  | Some r => Spec.record_color P r
  | None => None
  end.
Proof.
  unfold getNodeColor, Spec.record_color, truthy_opt.
  rewrite extractAccessionVersion_prefix.
  destruct (selectedField P) as [f|]; simpl.
  2: now destruct (metadata_find P _).
  destruct (JSString.truthy f); simpl.
  2: now destruct (metadata_find P _).
  destruct (List.length (JSObject.keys (colorMap P)) =? 0); simpl.
  1: now destruct (metadata_find P _).
  destruct (List.length (metadata P) =? 0) eqn:El.
  - apply Nat.eqb_eq in El. unfold metadata_find.
    destruct (metadata P); [reflexivity|discriminate].
  - destruct (metadata_find P _) as [r|]; [|reflexivity].
    destruct (JSObject.get r f) as [v|]; [|reflexivity].
    destruct (JSString.truthy v); simpl; [|reflexivity].
    destruct (JSObject.get (colorMap P) v) as [c|]; [|reflexivity].
    now destruct (JSString.truthy c).
Qed.


End Duplicates.




(* ================================================================== *)
(** * Styles *)

Section Styles.

Variable toLowerCase : jsstring -> jsstring.
Variable P : Props.






End Styles.



(* ================================================================== *)
(** * Descendant leaves *)


(** The loop over the children appends the leaves of each child in turn. *)
Lemma getDescendantLeaves_leaves_of (node : TreeNode) :
  getDescendantLeaves node = Spec.leaves_of node.
Proof.
  induction node as [id label isLeaf collapsed children IH]
    using TreeNode_induction.
  destruct isLeaf; [reflexivity|].
  destruct children as [cs|]; [|reflexivity].
  simpl.
  enough (G : forall acc,
             (fix each (children leaves : list TreeNode) {struct children} :=
                match children with
                | [] => leaves
                | child :: rest => each rest (leaves ++ getDescendantLeaves child)
                end) cs acc = acc ++ flat_map Spec.leaves_of cs)
    by apply (G []).
  induction IH as [|c rest Hc _ IHrest]; intros acc; simpl.
  - now rewrite app_nil_r.
  - rewrite IHrest, Hc. now rewrite <- app_assoc.
Qed.

(* ================================================================== *)
(** * Counting *)

Section Counting.

Variable P : Props.

Lemma memb_in (v : jsstring) (ks : list jsstring) :
  memb v ks = true <-> In v ks.
Proof.
  unfold memb. rewrite existsb_exists. split.
  - intros (k & Hk & E). apply jseqb_eq in E. now subst.
  - intros H. exists v. split; [exact H|apply jseqb_refl].
Qed.

Lemma memb_get {V} (o : JSObject.t V) (v : jsstring) :
  memb v (map fst o) = match JSObject.get o v with Some _ => true | None => false end.
Proof.
  induction o as [|[k x] o IH]; simpl; [reflexivity|].
  rewrite (jseqb_sym v k). destruct (JSString.eqb k v); simpl; [reflexivity|].
  exact IH.
Qed.

Lemma memb_app (v : jsstring) (ks ks' : list jsstring) :
  memb v (ks ++ ks') = memb v ks || memb v ks'.
Proof. apply existsb_app. Qed.


Lemma filter_seen (v : jsstring) (ks l : list jsstring) :
  memb v ks = true ->
  filter (fun y => negb (memb y ks))
         (filter (fun y => negb (JSString.eqb v y)) l) =
  filter (fun y => negb (memb y ks)) l.
Proof.
  intros Hv. induction l as [|y l IH]; simpl; [reflexivity|].
  destruct (JSString.eqb v y) eqn:E; simpl.
  - apply jseqb_eq in E. subst y. rewrite Hv. simpl. exact IH.
  - now rewrite IH.
Qed.

Lemma filter_new (v : jsstring) (ks l : list jsstring) :
  filter (fun y => negb (memb y (ks ++ [v]))) l =
  filter (fun y => negb (memb y ks))
         (filter (fun y => negb (JSString.eqb v y)) l).
Proof.
  induction l as [|y l IH]; simpl; [reflexivity|].
  rewrite memb_app. simpl. rewrite orb_false_r, (jseqb_sym y v).
  destruct (JSString.eqb v y); simpl.
  - rewrite orb_true_r. simpl. exact IH.
  - rewrite orb_false_r. now rewrite IH.
Qed.




End Counting.

(* ================================================================== *)
(** * Enumeration order *)

Section Enumeration.

Context {V W : Type}.
Variable f : V -> W.

Lemma insert_by_index_map i kv l :
  JSObject.insert_by_index i (Spec.relabel f kv)
    (map (fun x => (fst x, Spec.relabel f (snd x))) l) =
  map (fun x => (fst x, Spec.relabel f (snd x))) (JSObject.insert_by_index i kv l).
Proof.
  induction l as [|[j kv'] l IH]; simpl; [reflexivity|].
  destruct (i <=? j)%N; simpl; [reflexivity|]. now rewrite IH.
Qed.

Lemma index_entries_map (o : JSObject.t V) :
  JSObject.index_entries (map (Spec.relabel f) o) =
  map (fun x => (fst x, Spec.relabel f (snd x))) (JSObject.index_entries o).
Proof.
  induction o as [|[k v] o IH]; simpl; [reflexivity|].
  destruct (JSObject.array_index k); [|exact IH].
  rewrite IH. apply (insert_by_index_map _ (k, v)).
Qed.

(** The enumeration order depends on the keys alone. *)
Lemma entries_map (o : JSObject.t V) :
  JSObject.entries (map (Spec.relabel f) o) = map (Spec.relabel f) (JSObject.entries o).
Proof.
  unfold JSObject.entries, JSObject.named_entries.
  rewrite index_entries_map, map_app, !map_map. f_equal.
  induction o as [|[k v] o IH]; simpl; [reflexivity|].
  destruct (JSObject.is_array_index k); simpl; [exact IH|]. now rewrite IH.
Qed.

End Enumeration.

Lemma keys_enumeration_order {V} (o : JSObject.t V) :
  JSObject.keys o = Spec.enumeration_order (map fst o).
Proof.
  unfold Spec.enumeration_order, JSObject.keys.
  rewrite map_map.
  change (map (fun x : jsstring * V => (fst x, tt)) o)
    with (map (Spec.relabel (fun _ : V => tt)) o).
  rewrite entries_map, map_map. reflexivity.
Qed.



Section Sortedness.

Context {V : Type}.






End Sortedness.


(* ================================================================== *)
(** * Pie segments *)

Section Pie.

Variable P : Props.




End Pie.



Lemma first_seen_in (l : list jsstring) (v : jsstring) :
  In v (Spec.first_seen l) <-> In v l.
Proof.
  induction l as [|x l IH]; simpl; [tauto|].
  rewrite filter_In, IH, negb_true_iff, jseqb_neq.
  destruct (JSString.eqb x v) eqn:E.
  - apply jseqb_eq in E. subst. tauto.
  - apply jseqb_neq in E. tauto.
Qed.





(* ================================================================== *)
(** * Angles and counts of the segments *)

Section Angles.

Variable P : Props.











End Angles.

(** The example of three samples from two countries: USA with two of three
    leaves, then Canada with one, the angles running from 0 to 2 pi. *)
Lemma country_pie_example :
  map (fun s => (value s, count s, startAngle s, endAngle s, proportion s))
      (calculatePieChartData Examples.country_props
         (getDescendantLeaves Examples.country_tree))
  = [ (js "USA", 2, 0%float, 0x1.0c152382d7365p+2%float,
       0x1.5555555555555p-1%float);
      (js "Canada", 1, 0x1.0c152382d7365p+2%float,
       0x1.921fb54442d18p+2%float, 0x1.5555555555555p-2%float) ].
Proof. vm_compute. reflexivity. Qed.

(* ================================================================== *)
(** * The colour hash *)

Section Hash.

Open Scope Z_scope.

Lemma ToInt32_range (z : Z) : - 2 ^ 31 <= SidePanel.ToInt32 z < 2 ^ 31.
Proof.
  unfold SidePanel.ToInt32.
  pose proof (Z.mod_pos_bound z (2 ^ 32) ltac:(lia)) as H.
  destruct (z mod 2 ^ 32 <? 2 ^ 31) eqn:E.
  - apply Z.ltb_lt in E. lia.
  - apply Z.ltb_ge in E. lia.
Qed.

Lemma ToInt32_mod (z : Z) : SidePanel.ToInt32 z mod 2 ^ 32 = z mod 2 ^ 32.
Proof.
  unfold SidePanel.ToInt32.
  destruct (z mod 2 ^ 32 <? 2 ^ 31).
  - apply Z.mod_mod. lia.
  - rewrite Zminus_mod, Z.mod_same, Z.sub_0_r, !Z.mod_mod by lia.
    reflexivity.
Qed.

Lemma ToInt32_congr (a b : Z) :
  a mod 2 ^ 32 = b mod 2 ^ 32 -> SidePanel.ToInt32 a = SidePanel.ToInt32 b.
Proof. unfold SidePanel.ToInt32. now intros ->. Qed.

Lemma ToInt32_small (z : Z) :
  - 2 ^ 31 <= z < 2 ^ 31 -> SidePanel.ToInt32 z = z.
Proof.
  intros H. unfold SidePanel.ToInt32.
  destruct (Z_lt_le_dec z 0) as [Hn|Hp].
  - assert (E : z mod 2 ^ 32 = z + 2 ^ 32).
    { symmetry. apply Z.mod_unique with (q := -1); lia. }
    rewrite E. destruct (z + 2 ^ 32 <? 2 ^ 31) eqn:L.
    + apply Z.ltb_lt in L. lia.
    + lia.
  - rewrite Z.mod_small by lia.
    destruct (z <? 2 ^ 31) eqn:L; [reflexivity|].
    apply Z.ltb_ge in L. lia.
Qed.

Lemma ToInt32_idem (z : Z) :
  SidePanel.ToInt32 (SidePanel.ToInt32 z) = SidePanel.ToInt32 z.
Proof. apply ToInt32_small, ToInt32_range. Qed.

(** [h << 5] is [32 * h] modulo 2^32. *)
Lemma shl5_mod (h : Z) : SidePanel.shl h 5 mod 2 ^ 32 = (32 * h) mod 2 ^ 32.
Proof.
  unfold SidePanel.shl. rewrite ToInt32_mod, Z.shiftl_mul_pow2 by lia.
  change (2 ^ 5) with 32.
  rewrite Z.mul_comm, Zmult_mod, ToInt32_mod, <- Zmult_mod. reflexivity.
Qed.

(** One round of the loop is [31 * h + c] modulo 2^32. *)
Lemma step_mod (h c : Z) :
  (c + (SidePanel.shl h 5 - h)) mod 2 ^ 32 = (31 * h + c) mod 2 ^ 32.
Proof.
  rewrite Zplus_mod, Zminus_mod, shl5_mod, <- Zminus_mod, <- Zplus_mod.
  f_equal. lia.
Qed.

(** The loop over indices reads the code units in order. *)
Lemma hash_loop_fold (str : jsstring) :
  SidePanel.hash_loop str = Spec.rolling_hash str.
Proof.
  unfold SidePanel.hash_loop, Spec.rolling_hash.
  enough (G : forall pre s h,
             fold_left (fun hash i =>
                          SidePanel.charCodeAt (pre ++ s) i
                          + (SidePanel.shl hash 5 - hash))
                       (seq (List.length pre) (List.length s)) h =
             fold_left (fun h c => Z.of_N c + (SidePanel.shl h 5 - h)) s h)
    by apply (G [] str 0).
  intros pre s; revert pre; induction s as [|c s IH]; intros pre h.
  - reflexivity.
  - simpl. unfold SidePanel.charCodeAt at 2.
    rewrite app_nth2, Nat.sub_diag by lia. simpl.
    specialize (IH (pre ++ [c])).
    rewrite <- app_assoc, length_app, Nat.add_1_r in IH. simpl in IH.
    apply IH.
Qed.


(** The truncated hash is the polynomial in 31, truncated. *)
Lemma rolling_hash_poly31 (s : jsstring) :
  SidePanel.ToInt32 (Spec.rolling_hash s) = SidePanel.ToInt32 (Spec.poly31 s).
Proof.
  unfold Spec.rolling_hash, Spec.poly31.
  enough (G : forall h h', h mod 2 ^ 32 = h' mod 2 ^ 32 ->
    SidePanel.ToInt32
      (fold_left (fun h c => Z.of_N c + (SidePanel.shl h 5 - h)) s h) =
    SidePanel.ToInt32 (fold_left (fun h c => 31 * h + Z.of_N c) s h'))
    by (apply G; reflexivity).
  induction s as [|c s IH]; intros h h' E; simpl.
  - now apply ToInt32_congr.
  - apply IH. rewrite step_mod.
    rewrite Zplus_mod, Zmult_mod, E, <- Zmult_mod, <- Zplus_mod. reflexivity.
Qed.

(** The accumulator grows by less than 2^31 + 2^16 per code unit, so it
    stays an exactly representable number for any string of up to 2^20
    code units. *)
Lemma rolling_hash_bound (s : jsstring) :
  JSString.wf s ->
  Z.abs (Spec.rolling_hash s) <= Z.of_nat (List.length s) * (2 ^ 31 + 2 ^ 16).
Proof.
  unfold Spec.rolling_hash.
  enough (G : forall h, JSString.wf s ->
    Z.abs (fold_left (fun h c => Z.of_N c + (SidePanel.shl h 5 - h)) s h)
    <= Z.abs h + Z.of_nat (List.length s) * (2 ^ 31 + 2 ^ 16))
    by (intros W; apply (G 0 W)).
  induction s as [|c s IH]; intros h W.
  - simpl. lia.
  - inversion W as [|? ? Hc W']; subst.
    simpl fold_left. specialize (IH (Z.of_N c + (SidePanel.shl h 5 - h)) W').
    pose proof (ToInt32_range (Z.shiftl (SidePanel.ToInt32 h) 5)) as R.
    fold (SidePanel.shl h 5) in R.
    rewrite length_cons, Nat2Z.inj_succ. lia.
Qed.

Lemma rolling_hash_exact (s : jsstring) :
  JSString.wf s -> (List.length s <= 2 ^ 20)%nat ->
  Z.abs (Spec.rolling_hash s) < 2 ^ 53.
Proof.
  intros W L. pose proof (rolling_hash_bound s W) as B.
  assert (Z.of_nat (List.length s) <= 2 ^ 20).
  { apply Nat2Z.inj_le in L. rewrite Nat2Z.inj_pow in L. exact L. }
  nia.
Qed.

End Hash.




(* ================================================================== *)
(** * Tooltip placement *)

Section Placement.

Open Scope Q_scope.
Import TooltipSession.







End Placement.




(* ================================================================== *)
(** * The scale bar *)

Section ScaleBar.

Import ScaleBarCalculator JSNumber.
Open Scope float_scope.

Variable E : Engine.

Lemma mul_nan_l (y : float) : nan * y = nan.
Proof.
  rewrite <- (SF2Prim_Prim2SF (nan * y)), mul_spec. reflexivity.
Qed.

Lemma mul_nan_r (x : float) : x * nan = nan.
Proof.
  rewrite <- (SF2Prim_Prim2SF (x * nan)), mul_spec.
  change (Prim2SF nan) with S754_nan.
  destruct (Prim2SF x); reflexivity.
Qed.

(** Once the current scale is NaN, so are both refs. *)
Lemma nan_scale (t : Renderer) (branchScale zoom : jsval) :
  call_or (getBranchScale t) 1 = Normal branchScale ->
  call_or (getZoom t) 0 = Normal zoom ->
  ToNumber branchScale * Math_pow E 2 (ToNumber zoom) = nan ->
  scale_bar_body E t =
  Normal {| scaleBarValue := nan; scaleBarLength := nan |}.
Proof.
  intros Hb Hz Hs. unfold scale_bar_body. rewrite Hb, Hz. simpl.
  rewrite Hs. reflexivity.
Qed.

(** A query that returns [undefined] is no failure for the [try]: the
    scale bar is set to NaN. *)
Lemma undefined_gives_nan (t : Renderer) (refs : ScaleBar) :
  query_undefined t ->
  getBranchScale t <> Some Throw -> getZoom t <> Some Throw ->
  calculateScaleBar E (Some t) refs =
  Normal {| scaleBarValue := nan; scaleBarLength := nan |}.
Proof.
  intros U Tb Tz. unfold calculateScaleBar.
  destruct t as [gb gz]. unfold query_undefined in U. simpl in *.
  destruct U as [->| ->].
  - destruct gz as [[z|]|]; [|congruence|].
    + rewrite (nan_scale _ JUndefined z); try reflexivity. apply mul_nan_l.
    + rewrite (nan_scale _ JUndefined (JNumber 0)); try reflexivity.
  - destruct gb as [[b|]|]; [|congruence|].
    + rewrite (nan_scale _ b JUndefined); try reflexivity. apply mul_nan_r.
    + rewrite (nan_scale _ (JNumber 1) JUndefined); try reflexivity.
Qed.

End ScaleBar.

(** C6, as the code has it: when a renderer query throws, the scale bar is
    set to the fallback 0.1 and 100; a query that returns [undefined]
    without any query throwing is no failure for the [try], and both refs
    become NaN; no exception ever leaves [calculateScaleBar]; without a
    renderer the refs are left alone. *)
Theorem calculateScaleBar_catches (E : JSNumber.Engine) (refs : ScaleBar) :
  (forall t, query_throws t ->
     ScaleBarCalculator.calculateScaleBar E (Some t) refs
     = Normal ScaleBarCalculator.fallback) /\
  (forall t, query_undefined t -> ~ query_throws t ->
     ScaleBarCalculator.calculateScaleBar E (Some t) refs
     = Normal {| scaleBarValue := PrimFloat.nan;
                 scaleBarLength := PrimFloat.nan |}) /\
  (forall treeInstance,
     ScaleBarCalculator.calculateScaleBar E treeInstance refs <> Throw) /\
  ScaleBarCalculator.calculateScaleBar E None refs = Normal refs.
Proof.
  split; [|split; [|split]].
  - intros t [H|H]; unfold ScaleBarCalculator.calculateScaleBar,
      ScaleBarCalculator.scale_bar_body; rewrite H.
    + reflexivity.
    + destruct (getBranchScale t) as [[b|]|]; reflexivity.
  - intros t U T. apply undefined_gives_nan; [exact U| |];
      intros H; apply T; [left|right]; exact H.
  - intros [t|]; [|discriminate].
    unfold ScaleBarCalculator.calculateScaleBar, try_catch.
    destruct (ScaleBarCalculator.scale_bar_body E t); discriminate.
  - reflexivity.
Qed.

(** A renderer whose [getBranchScale] throws. *)
Lemma calculateScaleBar_catches_witness :
  ScaleBarCalculator.calculateScaleBar Examples.engine
    (Some Examples.renderer_throwing) Examples.some_refs
  = Normal ScaleBarCalculator.fallback.
Proof.
  apply (calculateScaleBar_catches Examples.engine Examples.some_refs).
  left. reflexivity.
Defined.

(** C6 as stated fails: when the queries return [undefined] nothing is
    thrown, the [catch] branch is not taken, and the scale bar is set to
    NaN instead of the fallback. *)
Lemma undefined_state_is_not_caught :
  query_undefined Examples.renderer_undefined /\
  ScaleBarCalculator.calculateScaleBar Examples.engine
    (Some Examples.renderer_undefined) Examples.some_refs
  = Normal {| scaleBarValue := PrimFloat.nan; scaleBarLength := PrimFloat.nan |} /\
  ScaleBarCalculator.calculateScaleBar Examples.engine
    (Some Examples.renderer_undefined) Examples.some_refs
  <> Normal ScaleBarCalculator.fallback /\
  ~ (forall (E : JSNumber.Engine) (t : Renderer) (refs : ScaleBar),
       query_throws t \/ query_undefined t ->
       ScaleBarCalculator.calculateScaleBar E (Some t) refs
       = Normal ScaleBarCalculator.fallback).
Proof.
  assert (N : ScaleBarCalculator.calculateScaleBar Examples.engine
                (Some Examples.renderer_undefined) Examples.some_refs
              <> Normal ScaleBarCalculator.fallback).
  { intros H.
    apply (f_equal (fun c => match c with
                             | Normal s => PrimFloat.is_nan (scaleBarValue s)
                             | Throw => false
                             end)) in H.
    vm_compute in H. discriminate H. }
  split; [left; reflexivity|]. split; [vm_compute; reflexivity|].
  split; [exact N|].
  intros C. apply N. apply C. right. left. reflexivity.
Qed.

(* ================================================================== *)
(** * The map handed to the renderer *)

Section RendererMetadata.

Variable P : Props.




End RendererMetadata.

(* ================================================================== *)
(** * Counts *)

Section Occurrences.




End Occurrences.


(* ================================================================== *)
(** * Dragging *)

(** Releasing the pointer folds the drag offset into the base position
    and clears it. *)
Lemma stopDrag_folds_offset (tip : Tooltip) :
  isDragging tip = true ->
  let tip' := TooltipSession.stopDrag tip in
  isDragging tip' = false /\
  tip_x tip' = (tip_x tip + dragOffsetX tip)%Q /\
  tip_y tip' = (tip_y tip + dragOffsetY tip)%Q /\
  dragOffsetX tip' = 0%Q /\ dragOffsetY tip' = 0%Q.
Proof.
  intros D. unfold TooltipSession.stopDrag. rewrite D. simpl. auto.
Qed.

(** While the pointer moves, the offset is the distance from where the
    drag started. *)
Lemma onDrag_offset (tip : Tooltip) (clientX clientY : Q) :
  isDragging tip = true ->
  let tip' := TooltipSession.onDrag clientX clientY tip in
  dragOffsetX tip' = (clientX - dragStartX tip)%Q /\
  dragOffsetY tip' = (clientY - dragStartY tip)%Q /\
  tip_x tip' = tip_x tip /\ tip_y tip' = tip_y tip.
Proof.
  intros D. unfold TooltipSession.onDrag. rewrite D. simpl. auto.
Qed.

(* ================================================================== *)
(** * Exact sums and accumulated rounding *)

Section Crowd.














Variable P : Props.




End Crowd.





Lemma first_seen_NoDup_id (l : list jsstring) :
  NoDup l -> first_seen l = l.
Proof.
  induction l as [|x l IH]; intros N; simpl; [reflexivity|].
  inversion N as [|? ? Hx N']; subst. rewrite (IH N'). f_equal.
  clear IH N N'. induction l as [|y l IHl]; simpl; [reflexivity|].
  destruct (JSString.eqb x y) eqn:E.
  - apply jseqb_eq in E. subst. exfalso. apply Hx. now left.
  - simpl. rewrite IHl; [reflexivity|]. intros H. apply Hx. now right.
Qed.

Section Exact.

Variable P : Props.




End Exact.







(* ================================================================== *)
(** * Splitting, joining and trimming *)

Section TextFacts.

Lemma split_no_sep (sep : N) (s : jsstring) :
  ~ In sep s -> JSString.split sep s = [s].
Proof.
  induction s as [|c s IH]; simpl; intros H; [reflexivity|].
  destruct (N.eqb c sep) eqn:E.
  - apply N.eqb_eq in E. exfalso. apply H. now left.
  - rewrite IH by tauto. reflexivity.
Qed.

Lemma split_app (sep : N) (p rest : jsstring) :
  ~ In sep p ->
  JSString.split sep (p ++ sep :: rest) = p :: JSString.split sep rest.
Proof.
  induction p as [|c p IH]; simpl; intros H.
  - now rewrite N.eqb_refl.
  - destruct (N.eqb c sep) eqn:E.
    + apply N.eqb_eq in E. exfalso. apply H. now left.
    + rewrite IH by tauto. reflexivity.
Qed.

(** Splitting undoes joining when no part holds the separator. *)
Lemma split_join (sep : N) (parts : list jsstring) :
  parts <> [] -> Forall (fun p => ~ In sep p) parts ->
  JSString.split sep (JSString.join [sep] parts) = parts.
Proof.
  induction parts as [|p ps IH]; intros Hne Hall; [congruence|].
  inversion Hall as [|? ? Hp Hps]; subst.
  destruct ps as [|q ps].
  - simpl. now apply split_no_sep.
  - change (JSString.join [sep] (p :: q :: ps))
      with (p ++ sep :: JSString.join [sep] (q :: ps)).
    rewrite split_app by exact Hp. f_equal. apply IH; [discriminate|exact Hps].
Qed.

(** Joining undoes splitting. *)
Lemma join_split (sep : N) (s : jsstring) :
  JSString.join [sep] (JSString.split sep s) = s.
Proof.
  induction s as [|c s IH]; simpl; [reflexivity|].
  destruct (N.eqb c sep) eqn:E.
  - apply N.eqb_eq in E. subst c.
    destruct (split_head sep s) as (p & ps & Es). rewrite Es in *.
    change (JSString.join [sep] ([] :: p :: ps))
      with (sep :: JSString.join [sep] (p :: ps)).
    now rewrite IH.
  - destruct (split_head sep s) as (p & ps & Es). rewrite Es in *.
    destruct ps as [|q ps]; simpl in *; now rewrite IH.
Qed.

(** No piece of a split holds the separator. *)
Lemma split_pieces (sep : N) (s : jsstring) :
  Forall (fun p => ~ In sep p) (JSString.split sep s).
Proof.
  induction s as [|c s IH]; simpl.
  - constructor; [tauto|constructor].
  - destruct (N.eqb c sep) eqn:E.
    + constructor; [tauto|exact IH].
    + destruct (split_head sep s) as (p & ps & Es). rewrite Es in *.
      inversion IH as [|? ? Hp Hps]; subst.
      constructor; [|exact Hps].
      intros [H|H]; [|tauto]. subst. now rewrite N.eqb_refl in E.
Qed.

End TextFacts.

(* ================================================================== *)
(** * The metadata parser *)

Section Parser.

Import TsvParser Reference.

Lemma nth_seq_map {A} (l : list A) (d : A) :
  map (fun i => nth i l d) (seq 0 (List.length l)) = l.
Proof.
  induction l as [|x l IH]; simpl; [reflexivity|].
  f_equal. rewrite <- seq_shift, map_map. exact IH.
Qed.

Lemma fold_left_map_list {A B C} (f : A -> C -> A) (g : B -> C) (l : list B) (a : A) :
  fold_left f (map g l) a = fold_left (fun a x => f a (g x)) l a.
Proof. revert a; induction l as [|x l IH]; intros a; simpl; auto. Qed.

Lemma fold_nth_seq {A B} (f : A -> B -> A) (l : list B) (d : B) (a : A) :
  fold_left f l a
  = fold_left (fun a i => f a (nth i l d)) (seq 0 (List.length l)) a.
Proof.
  rewrite <- fold_left_map_list with (g := fun i => nth i l d).
  now rewrite nth_seq_map.
Qed.

Lemma nth_pair_seq (hs vs : list jsstring) :
  List.length vs = List.length hs ->
  map (fun j => (nth j hs [], nth j vs [])) (seq 0 (List.length hs))
  = combine hs vs.
Proof.
  revert vs; induction hs as [|h hs IH]; intros [|v vs] E; simpl in *;
    try reflexivity; try discriminate.
  f_equal. rewrite <- seq_shift, map_map. apply IH. lia.
Qed.

(** The loop over the column indices assigns the columns in order. *)
Lemma entry_fold (hs vs : list jsstring) :
  List.length vs = List.length hs ->
  fold_left (entry_step hs vs) (seq 0 (List.length hs)) JSObject.empty
  = row_of hs vs.
Proof.
  intros E. unfold row_of. rewrite <- (nth_pair_seq hs vs E).
  rewrite fold_left_map_list. reflexivity.
Qed.

Lemma line_fold_list (hs : list jsstring) (ls : list jsstring)
      (data : list MetadataRecord) :
  fold_left (fun data line =>
               let values := JSString.split tab line in
               if (List.length values =? List.length hs)%nat
               then data ++ [fold_left (entry_step hs values)
                                       (seq 0 (List.length hs)) JSObject.empty]
               else data) ls data
  = data ++ map (fun line => row_of hs (JSString.split tab line))
                (filter (well_formed hs) ls).
Proof.
  revert data; induction ls as [|l ls IH]; intros data; simpl.
  - now rewrite app_nil_r.
  - rewrite IH. unfold well_formed at 2.
    destruct (List.length (JSString.split tab l) =? List.length hs) eqn:E.
    + apply Nat.eqb_eq in E. rewrite entry_fold by exact E.
      simpl. now rewrite <- app_assoc.
    + reflexivity.
Qed.

(** The loop over the line numbers visits the lines after the first, in
    order, and keeps those with as many cells as there are headers. *)
Lemma line_fold (lines hs : list jsstring) :
  fold_left (line_step lines hs) (seq 1 (List.length lines - 1)) []
  = map (fun line => row_of hs (JSString.split tab line))
        (filter (well_formed hs) (tl lines)).
Proof.
  etransitivity; [|apply (line_fold_list hs (tl lines) [])].
  destruct lines as [|l0 ls]; [reflexivity|].
  replace (List.length (l0 :: ls) - 1) with (List.length ls)
    by (simpl; lia).
  simpl tl.
  etransitivity; [|symmetry; apply (fold_nth_seq _ ls [] [])].
  rewrite <- seq_shift, fold_left_map_list.
  reflexivity.
Qed.

Lemma set_new {V} (o : JSObject.t V) (k : jsstring) (v : V) :
  JSObject.get o k = None -> JSObject.set o k v = o ++ [(k, v)].
Proof.
  induction o as [|[k0 v0] o IH]; simpl; [reflexivity|].
  destruct (JSString.eqb k0 k); [discriminate|].
  intros H. now rewrite IH.
Qed.

(** With distinct headers, none of them [__proto__], the record lists the
    columns as they stand. *)
Lemma row_of_distinct (hs vs : list jsstring) (e : MetadataRecord) :
  NoDup hs -> (forall h, In h hs -> not_proto h = true) ->
  (forall h, In h hs -> JSObject.get e h = None) ->
  fold_left (fun entry hv => ObjectPrototype.assign entry (fst hv) (snd hv))
            (combine hs vs) e
  = e ++ combine hs vs.
Proof.
  revert vs e; induction hs as [|h hs IH]; intros vs e N P F; simpl.
  - now rewrite app_nil_r.
  - destruct vs as [|v vs]; simpl; [now rewrite app_nil_r|].
    inversion N as [|? ? Hh N']; subst.
    unfold ObjectPrototype.assign at 2.
    pose proof (P h (or_introl eq_refl)) as Ph. unfold not_proto in Ph.
    apply negb_true_iff in Ph. rewrite Ph.
    rewrite set_new by (apply F; now left).
    rewrite IH.
    + now rewrite <- app_assoc.
    + exact N'.
    + intros h' H'. apply P. now right.
    + intros h' H'. rewrite get_none_keys, map_app, in_app_iff. simpl.
      intros [H|[H|[]]].
      * apply (proj1 (get_none_keys e h')); [|exact H]. apply F. now right.
      * subst. contradiction.
Qed.

(** A look-up in the record: the last column with the header wins. *)
Lemma row_of_get_fold (kvs : list (jsstring * jsstring)) (e : MetadataRecord)
      (h : jsstring) :
  not_proto h = true ->
  JSObject.get
    (fold_left (fun entry hv => ObjectPrototype.assign entry (fst hv) (snd hv))
               kvs e) h
  = match JSObject.get (rev kvs) h with
    | Some v => Some v
    | None => JSObject.get e h
    end.
Proof.
  intros Hp. revert e; induction kvs as [|[k v] kvs IH]; intros e; simpl.
  - reflexivity.
  - rewrite IH.
    assert (G : forall (a b : MetadataRecord),
               JSObject.get (a ++ b) h =
               match JSObject.get a h with
               | Some x => Some x
               | None => JSObject.get b h
               end).
    { intros a b. induction a as [|[k1 v1] a IHa]; simpl; [reflexivity|].
      now destruct (JSString.eqb k1 h). }
    rewrite G. destruct (JSObject.get (rev kvs) h); [reflexivity|].
    simpl. unfold ObjectPrototype.assign.
    destruct (JSString.eqb k (js "__proto__")) eqn:Ek.
    + apply jseqb_eq in Ek. subst k.
      unfold not_proto in Hp. apply negb_true_iff in Hp.
      rewrite jseqb_sym in Hp. now rewrite Hp.
    + rewrite get_set. now destruct (JSString.eqb k h).
Qed.

Lemma row_of_get (hs vs : list jsstring) (h : jsstring) :
  not_proto h = true ->
  JSObject.get (row_of hs vs) h = last_cell hs vs h.
Proof.
  intros Hp. unfold row_of, last_cell. rewrite row_of_get_fold by exact Hp.
  now destruct (JSObject.get (rev (combine hs vs)) h).
Qed.

(** The keys of the record, in creation order. *)
Lemma row_of_keys_fold (kvs : list (jsstring * jsstring)) (e : MetadataRecord) :
  map fst (fold_left (fun entry hv =>
                        ObjectPrototype.assign entry (fst hv) (snd hv)) kvs e)
  = map fst e ++
    filter (fun k => negb (memb k (map fst e)))
           (first_seen (filter not_proto (map fst kvs))).
Proof.
  revert e; induction kvs as [|[k v] kvs IH]; intros e; simpl.
  - now rewrite app_nil_r.
  - rewrite IH. unfold ObjectPrototype.assign, not_proto at 2.
    destruct (JSString.eqb k (js "__proto__")); simpl; [reflexivity|].
    rewrite keys_set, memb_get.
    destruct (JSObject.get e k) as [x|] eqn:E; simpl.
    + rewrite filter_seen; [reflexivity|]. now rewrite memb_get, E.
    + rewrite filter_new, <- app_assoc. reflexivity.
Qed.

Lemma filter_nothing_seen (l : list jsstring) :
  filter (fun k => negb (memb k [])) l = l.
Proof.
  induction l as [|x l IH]; [reflexivity|].
  change (x :: filter (fun k => negb (memb k [])) l = x :: l).
  now rewrite IH.
Qed.

Lemma map_fst_combine (hs vs : list jsstring) :
  List.length vs = List.length hs -> map fst (combine hs vs) = hs.
Proof.
  revert vs; induction hs as [|h hs IH]; intros [|v vs] E; simpl in *;
    try reflexivity; try discriminate.
  f_equal. apply IH. lia.
Qed.

Lemma row_of_keys (hs vs : list jsstring) :
  List.length vs = List.length hs ->
  map fst (row_of hs vs) = first_seen (filter not_proto hs).
Proof.
  intros E. unfold row_of. rewrite row_of_keys_fold. simpl.
  now rewrite filter_nothing_seen, map_fst_combine.
Qed.

Lemma in_join (sep : N) (parts : list jsstring) (c : N) :
  In c (JSString.join [sep] parts) ->
  c = sep \/ exists p, In p parts /\ In c p.
Proof.
  induction parts as [|p ps IH]; simpl; [tauto|].
  destruct ps as [|q ps].
  - intros H. right. exists p. auto.
  - rewrite in_app_iff. intros [H|H].
    + right. exists p. auto.
    + simpl in H. destruct H as [H|H]; [now left|].
      destruct (IH H) as [E|(p' & Hp' & Hc)]; [now left|].
      right. exists p'. auto.
Qed.

Lemma tsv_line_split (cells : list jsstring) :
  cells <> [] -> plain_cells cells ->
  JSString.split tab (tsv_line cells) = cells.
Proof.
  intros Hne Hp. apply split_join; [exact Hne|].
  revert Hp. apply Forall_impl. tauto.
Qed.

Lemma tsv_line_no_newline (cells : list jsstring) :
  plain_cells cells -> ~ In newline (tsv_line cells).
Proof.
  intros Hp H. apply in_join in H as [H|(p & Hin & Hc)]; [discriminate|].
  unfold plain_cells in Hp. rewrite Forall_forall in Hp.
  now apply (Hp p Hin).
Qed.

Lemma parsed_table (hs : list jsstring) (rows : list (list jsstring)) :
  hs <> [] -> plain_cells hs -> Forall plain_cells rows ->
  JSText.trim (tsv_text hs rows) = tsv_text hs rows ->
  lines_of (tsv_text hs rows) = map tsv_line (hs :: rows) /\
  headers_of (tsv_text hs rows) = hs.
Proof.
  intros Hne Hp Hr Ht.
  assert (L : lines_of (tsv_text hs rows) = map tsv_line (hs :: rows)).
  { unfold lines_of. rewrite Ht. unfold tsv_text.
    apply split_join; [discriminate|].
    apply Forall_map. constructor.
    - now apply tsv_line_no_newline.
    - revert Hr. apply Forall_impl. apply tsv_line_no_newline. }
  split; [exact L|].
  unfold headers_of. rewrite L. simpl nth. now apply tsv_line_split.
Qed.

End Parser.

(** X1: parseTsv returns one record for every line after the header line
    that has as many tab-separated cells as there are headers, in the order
    of the lines; the other lines are dropped without notice, and a text
    of one line gives no record. *)
Theorem parseTsv_keeps_matching_lines (tsv : jsstring) :
  TsvParser.parseTsv tsv =
    map (fun line =>
           Reference.row_of (Reference.headers_of tsv)
                            (JSString.split TsvParser.tab line))
        (filter (Reference.well_formed (Reference.headers_of tsv))
                (tl (Reference.lines_of tsv))) /\
  List.length (TsvParser.parseTsv tsv)
    <= List.length (Reference.lines_of tsv) - 1 /\
  (~ In TsvParser.newline (JSText.trim tsv) -> TsvParser.parseTsv tsv = []).
Proof.
  assert (E : TsvParser.parseTsv tsv =
    map (fun line =>
           Reference.row_of (Reference.headers_of tsv)
                            (JSString.split TsvParser.tab line))
        (filter (Reference.well_formed (Reference.headers_of tsv))
                (tl (Reference.lines_of tsv)))).
  { unfold TsvParser.parseTsv. apply line_fold. }
  split; [exact E|]. split.
  - rewrite E, length_map.
    etransitivity; [apply filter_length_le|].
    destruct (Reference.lines_of tsv); simpl; lia.
  - intros H. rewrite E. unfold Reference.lines_of.
    now rewrite (split_no_sep _ _ H).
Qed.

(** X2: parsing the text of a table gives the table back.  For headers
    that are pairwise distinct and not [__proto__], rows with one cell per
    header, cells without tab or line feed and a text without white space
    at its ends, the records are the rows, each listing its cells under
    the headers from left to right. *)
Theorem parseTsv_round_trip (headers : list jsstring)
        (rows : list (list jsstring)) :
  headers <> [] -> NoDup headers ->
  ~ In (js "__proto__") headers ->
  Reference.plain_cells headers ->
  Forall Reference.plain_cells rows ->
  Forall (fun row => List.length row = List.length headers) rows ->
  JSText.trim (Reference.tsv_text headers rows)
    = Reference.tsv_text headers rows ->
  TsvParser.parseTsv (Reference.tsv_text headers rows)
    = map (combine headers) rows.
Proof.
  intros Hne Hnd Hproto Hp Hr Hl Ht.
  destruct (parsed_table headers rows Hne Hp Hr Ht) as [L H].
  unfold TsvParser.parseTsv.
  change (JSString.split TsvParser.newline
            (JSText.trim (Reference.tsv_text headers rows)))
    with (Reference.lines_of (Reference.tsv_text headers rows)).
  change (JSString.split TsvParser.tab
            (nth 0 (Reference.lines_of (Reference.tsv_text headers rows)) []))
    with (Reference.headers_of (Reference.tsv_text headers rows)).
  rewrite line_fold, H, L. simpl tl.
  clear L H Ht.
  induction rows as [|row rows IH]; [reflexivity|].
  inversion Hr as [|? ? Hrow Hr']; subst.
  inversion Hl as [|? ? Hlen Hl']; subst.
  assert (Hrne : row <> []).
  { intros ->. destruct headers; [congruence|discriminate]. }
  assert (Hwf : Reference.well_formed headers (Reference.tsv_line row) = true).
  { unfold Reference.well_formed.
    rewrite (tsv_line_split row Hrne Hrow). apply Nat.eqb_eq. exact Hlen. }
  cbn [map filter]. rewrite Hwf. cbn [map].
  rewrite (tsv_line_split row Hrne Hrow).
  f_equal; [|now apply IH].
  refine (row_of_distinct headers row [] Hnd _ (fun _ _ => eq_refl)).
  intros h Hin. unfold Reference.not_proto. apply negb_true_iff.
  apply jseqb_neq. intros ->. contradiction.
Qed.

(** The table of three samples is read back as written. *)
Lemma parseTsv_round_trip_witness :
  TsvParser.parseTsv
    (Reference.tsv_text Samples.sheet_headers Samples.sheet_rows)
  = map (combine Samples.sheet_headers) Samples.sheet_rows.
Proof.
  apply (parseTsv_round_trip Samples.sheet_headers Samples.sheet_rows).
  - discriminate.
  - repeat constructor; simpl; intuition discriminate.
  - simpl. intuition discriminate.
  - repeat constructor; vm_compute; intuition discriminate.
  - repeat constructor; vm_compute; intuition discriminate.
  - repeat constructor.
  - vm_compute. reflexivity.
Defined.

(** The keys of every record of a parsed table, in creation order. *)
Lemma parsed_row_keys (tsv : jsstring) (row : MetadataRecord) :
  In row (TsvParser.parseTsv tsv) ->
  map fst row
  = Spec.first_seen (filter Reference.not_proto (Reference.headers_of tsv)).
Proof.
  intros Hin. unfold TsvParser.parseTsv in Hin.
  change (JSString.split TsvParser.newline (JSText.trim tsv))
    with (Reference.lines_of tsv) in Hin.
  change (JSString.split TsvParser.tab (nth 0 (Reference.lines_of tsv) []))
    with (Reference.headers_of tsv) in Hin.
  rewrite line_fold in Hin.
  apply in_map_iff in Hin as (line & <- & Hl).
  apply filter_In in Hl as [_ Hwf]. apply Nat.eqb_eq in Hwf.
  now apply row_of_keys.
Qed.

(** X3: every record parseTsv returns comes from a line with one cell per
    header.  Its own properties are the distinct headers in the order of
    their first columns, [__proto__] left out, and under a header it holds
    the cell of the last column with that header. *)
Theorem parseTsv_records_follow_headers (tsv : jsstring) (row : MetadataRecord) :
  In row (TsvParser.parseTsv tsv) ->
  exists line,
    In line (tl (Reference.lines_of tsv)) /\
    List.length (JSString.split TsvParser.tab line)
      = List.length (Reference.headers_of tsv) /\
    map fst row
      = Spec.first_seen (filter Reference.not_proto (Reference.headers_of tsv)) /\
    forall h, h <> js "__proto__" ->
      JSObject.get row h
      = Reference.last_cell (Reference.headers_of tsv)
                            (JSString.split TsvParser.tab line) h.
Proof.
  intros Hin. unfold TsvParser.parseTsv in Hin.
  change (JSString.split TsvParser.newline (JSText.trim tsv))
    with (Reference.lines_of tsv) in Hin.
  change (JSString.split TsvParser.tab (nth 0 (Reference.lines_of tsv) []))
    with (Reference.headers_of tsv) in Hin.
  rewrite line_fold in Hin.
  apply in_map_iff in Hin as (line & <- & Hl).
  apply filter_In in Hl as [Hl Hwf].
  apply Nat.eqb_eq in Hwf.
  exists line. split; [exact Hl|]. split; [exact Hwf|]. split.
  - now apply row_of_keys.
  - intros h Hh. apply row_of_get. unfold Reference.not_proto.
    apply negb_true_iff. now apply jseqb_neq.
Qed.

(** In the table with a repeated header the first record holds the cell of
    the last Country column. *)
Lemma parseTsv_records_follow_headers_witness :
  exists line,
    In line (tl (Reference.lines_of Samples.table)) /\
    List.length (JSString.split TsvParser.tab line)
      = List.length (Reference.headers_of Samples.table) /\
    map fst [(js "accessionVersion", js "A1"); (js "Country", js "Canada")]
      = Spec.first_seen
          (filter Reference.not_proto (Reference.headers_of Samples.table)) /\
    forall h, h <> js "__proto__" ->
      JSObject.get [(js "accessionVersion", js "A1"); (js "Country", js "Canada")] h
      = Reference.last_cell (Reference.headers_of Samples.table)
                            (JSString.split TsvParser.tab line) h.
Proof.
  apply (parseTsv_records_follow_headers Samples.table
           [(js "accessionVersion", js "A1"); (js "Country", js "Canada")]).
  vm_compute. left. reflexivity.
Defined.

(** X4: the fields the side panel offers for a parsed table are the
    distinct headers other than [__proto__], in the order in which an
    object enumerates them: headers that are array indices first, in
    ascending order, then the others as they stand in the header line. *)
Theorem metadataFields_of_parsed_table (tsv : jsstring) :
  TsvParser.parseTsv tsv <> [] ->
  SidePanelEvents.metadataFields (TsvParser.parseTsv tsv)
  = Spec.enumeration_order
      (Spec.first_seen (filter Reference.not_proto (Reference.headers_of tsv))).
Proof.
  intros Hne. unfold SidePanelEvents.metadataFields.
  destruct (TsvParser.parseTsv tsv) as [|row rows] eqn:E; [now elim Hne|].
  cbn [List.length Nat.ltb Nat.leb nth].
  rewrite keys_enumeration_order. f_equal.
  apply (parsed_row_keys tsv). rewrite E. now left.
Qed.

Lemma metadataFields_of_parsed_table_witness :
  SidePanelEvents.metadataFields (TsvParser.parseTsv Samples.table)
  = Spec.enumeration_order
      (Spec.first_seen
         (filter Reference.not_proto (Reference.headers_of Samples.table))).
Proof.
  apply (metadataFields_of_parsed_table Samples.table).
  vm_compute. discriminate.
Defined.

(* ================================================================== *)
(** * FASTA headers and the tree printed by the tool *)

Section Fasta.

Import PhyloTree.

Lemma accession_prefix_in (s : jsstring) (c : N) :
  In c (Spec.accession_prefix s) -> In c s.
Proof.
  induction s as [|x s IH]; simpl; [tauto|].
  destruct (N.eqb x bar); simpl; [tauto|]. tauto.
Qed.

Lemma strip_line_short (line : jsstring) :
  strip_line line = Reference.short_header line.
Proof.
  unfold strip_line, Reference.short_header.
  destruct line as [|c name]; [reflexivity|].
  cbn [JSString.startsWith js JSString.lit list_ascii_of_string map tl].
  change (N_of_ascii ">") with 62%N.
  destruct (N.eqb c 62) eqn:E; simpl.
  - apply N.eqb_eq in E. subst c.
    change (nth 0 (JSString.split bar name) []) with (extractAccessionVersion name).
    now rewrite extractAccessionVersion_prefix.
  - reflexivity.
Qed.

Lemma short_header_no_newline (line : jsstring) :
  ~ In 10%N line -> ~ In 10%N (Reference.short_header line).
Proof.
  unfold Reference.short_header. destruct line as [|c name]; [tauto|].
  destruct (N.eqb c 62); [|tauto].
  intros H [E|Hin]; [apply H; now left|].
  apply H. right. now apply accession_prefix_in.
Qed.

Lemma short_header_idem (line : jsstring) :
  Reference.short_header (Reference.short_header line)
  = Reference.short_header line.
Proof.
  unfold Reference.short_header. destruct line as [|c name]; [reflexivity|].
  destruct (N.eqb c 62) eqn:E; rewrite E; [|reflexivity].
  f_equal. apply accession_prefix_no_bar, accession_prefix_clean.
Qed.

Lemma stripped_lines (fastaContent : jsstring) :
  JSString.split 10 (stripFastaHeaders fastaContent)
  = map Reference.short_header (JSString.split 10 fastaContent).
Proof.
  unfold stripFastaHeaders.
  rewrite (map_ext _ _ strip_line_short).
  apply split_join.
  - destruct (split_head 10 fastaContent) as (p & ps & E). rewrite E. discriminate.
  - apply Forall_map. generalize (split_pieces 10 fastaContent).
    apply Forall_impl. apply short_header_no_newline.
Qed.

(** Trimming only removes code units. *)
Lemma trimStart_in (s : jsstring) (c : N) : In c (JSText.trimStart s) -> In c s.
Proof.
  induction s as [|x s IH]; simpl; [tauto|].
  destruct (JSText.is_space x); simpl; tauto.
Qed.

Lemma trim_in (s : jsstring) (c : N) : In c (JSText.trim s) -> In c s.
Proof.
  unfold JSText.trim, JSText.trimEnd. intros H.
  apply (proj2 (in_rev _ _)) in H. apply trimStart_in in H.
  apply (proj2 (in_rev _ _)) in H. now apply trimStart_in.
Qed.

Lemma includes_unit (s : jsstring) (c : N) :
  JSString.includes s [c] = true <-> In c s.
Proof.
  rewrite includes_spec. unfold Spec.substring_of. split.
  - intros (b & a & ->). apply in_app_iff. right. now left.
  - intros H. apply in_split in H as (b & a & ->). now exists b, a.
Qed.

Lemma tree_line_paren (line : jsstring) :
  is_tree_line line = true \/ looks_like_tree line = true -> In 40%N line.
Proof.
  unfold is_tree_line, looks_like_tree. intros [H|H].
  - apply andb_true_iff in H as [H _].
    apply startsWith_spec in H as (rest & H).
    apply trim_in. rewrite H. now left.
  - apply andb_true_iff in H as [H _]. apply andb_true_iff in H as [H _].
    now apply (includes_unit line 40).
Qed.

(** What is extracted is a trimmed line that passes one of the tests. *)
Lemma extractNewick_line (result : jsstring) :
  extractNewick result = [] \/
  exists line,
    In line (JSString.split 10 result) /\
    extractNewick result = JSText.trim line /\
    (is_tree_line line = true \/ looks_like_tree line = true).
Proof.
  unfold extractNewick.
  destruct (find is_tree_line (JSString.split 10 result)) as [l1|] eqn:E1.
  - apply find_some in E1 as [Hin Ht].
    destruct (JSString.truthy (JSText.trim l1)) eqn:T; cbn [negb].
    + right. exists l1. auto.
    + destruct (find looks_like_tree (JSString.split 10 result)) as [l2|] eqn:E2.
      * apply find_some in E2 as [Hin2 Ht2]. right. exists l2. auto.
      * right. exists l1. auto.
  - cbn [JSString.truthy negb].
    destruct (find looks_like_tree (JSString.split 10 result)) as [l2|] eqn:E2.
    + apply find_some in E2 as [Hin2 Ht2]. right. exists l2. auto.
    + now left.
Qed.

End Fasta.

(** X5: stripFastaHeaders works line by line.  It keeps the number of
    lines, leaves every line that does not start with ['>'] as it is, and
    cuts every header line back to ['>'] and the part of its name before
    the first ['|']. *)
Theorem stripFastaHeaders_line_by_line (fastaContent : jsstring) :
  JSString.split 10 (PhyloTree.stripFastaHeaders fastaContent)
    = map Reference.short_header (JSString.split 10 fastaContent) /\
  List.length (JSString.split 10 (PhyloTree.stripFastaHeaders fastaContent))
    = List.length (JSString.split 10 fastaContent) /\
  (forall name,
     Reference.short_header (62%N :: name) = 62%N :: Spec.accession_prefix name) /\
  (forall line,
     JSString.startsWith line (js ">") = false ->
     Reference.short_header line = line).
Proof.
  split; [apply stripped_lines|]. split.
  - now rewrite stripped_lines, length_map.
  - split; [reflexivity|].
    intros [|c line]; [reflexivity|]. unfold Reference.short_header.
    cbn [JSString.startsWith js JSString.lit list_ascii_of_string map].
    change (N_of_ascii ">") with 62%N.
    destruct (N.eqb c 62); [discriminate|reflexivity].
Qed.

(** X6: stripping is idempotent: a stripped file is left as it is, no
    header line of a stripped file holds a ['|'], and a file without
    header lines is returned unchanged. *)
Theorem stripFastaHeaders_idempotent (fastaContent : jsstring) :
  PhyloTree.stripFastaHeaders (PhyloTree.stripFastaHeaders fastaContent)
    = PhyloTree.stripFastaHeaders fastaContent /\
  (forall line,
     In line (JSString.split 10 (PhyloTree.stripFastaHeaders fastaContent)) ->
     JSString.startsWith line (js ">") = true -> ~ In bar line) /\
  ((forall line,
      In line (JSString.split 10 fastaContent) ->
      JSString.startsWith line (js ">") = false) ->
   PhyloTree.stripFastaHeaders fastaContent = fastaContent).
Proof.
  split; [|split].
  - unfold PhyloTree.stripFastaHeaders at 1 3.
    rewrite stripped_lines, map_map. f_equal.
    apply map_ext. intros line.
    now rewrite !strip_line_short, short_header_idem.
  - intros line Hin Hs. rewrite stripped_lines in Hin.
    apply in_map_iff in Hin as (l0 & <- & _).
    unfold Reference.short_header in *. destruct l0 as [|c name]; [discriminate|].
    destruct (N.eqb c 62) eqn:E.
    + apply N.eqb_eq in E. subst c. intros [H|H]; [discriminate|].
      now apply (accession_prefix_clean name).
    + cbn [JSString.startsWith js JSString.lit list_ascii_of_string map] in Hs.
      change (N_of_ascii ">") with 62%N in Hs. rewrite E in Hs. discriminate.
  - intros H. unfold PhyloTree.stripFastaHeaders.
    rewrite <- (join_split 10 fastaContent) at 2. f_equal.
    rewrite <- (map_id (JSString.split 10 fastaContent)) at 2.
    apply map_ext_in. intros line Hin.
    unfold PhyloTree.strip_line. now rewrite (H line Hin).
Qed.

Lemma extractAccessionVersion_idem (name : jsstring) :
  extractAccessionVersion (extractAccessionVersion name)
  = extractAccessionVersion name.
Proof.
  rewrite !extractAccessionVersion_prefix.
  apply accession_prefix_no_bar, accession_prefix_clean.
Qed.

(** X7: the name stripFastaHeaders leaves behind ['>'] is the accession the
    viewer extracts from the full name, and the viewer treats both names
    alike: label, search match and colour of the short name are those of
    the full name. *)
Theorem stripped_name_same_annotation (toLowerCase : jsstring -> jsstring)
        (P : Props) (name : jsstring) :
  PhyloTree.strip_line (js ">" ++ name)
    = js ">" ++ extractAccessionVersion name /\
  buildNodeLabel P (extractAccessionVersion name) = buildNodeLabel P name /\
  isNodeMatched toLowerCase P (extractAccessionVersion name)
    = isNodeMatched toLowerCase P name /\
  getNodeColor P (extractAccessionVersion name) = getNodeColor P name.
Proof.
  split; [reflexivity|].
  unfold buildNodeLabel, isNodeMatched, getNodeColor.
  rewrite extractAccessionVersion_idem. auto.
Qed.

(** X8: when the tool prints no line that passes either test for a tree,
    calculateTree emits nothing, and the error it shows is the one for a
    tool that could not be initialised: the message of the error it throws
    mentions FastTree, which the handler takes for a loading failure. *)
Theorem calculateTree_no_tree_message (fastaContent result : jsstring)
        (tool : jsstring -> PhyloTree.ToolRun) (error_before : option jsstring) :
  fastaContent <> [] ->
  tool (PhyloTree.stripFastaHeaders fastaContent) = PhyloTree.Printed result ->
  (forall line, In line (JSString.split 10 result) ->
                PhyloTree.is_tree_line line = false /\
                PhyloTree.looks_like_tree line = false) ->
  PhyloTree.calculateTree fastaContent tool error_before =
  {| PhyloTree.emitted := None;
     PhyloTree.error :=
       Some (js "Unable to initialize tree calculation tool. Please check your internet connection and try again.") |}.
Proof.
  intros Hne Ht Hno. unfold PhyloTree.calculateTree.
  apply truthy_nonempty in Hne. rewrite Hne, Ht. cbn [negb].
  destruct (extractNewick_line result) as [E|(line & Hin & _ & Hl)].
  - rewrite E. reflexivity.
  - destruct (Hno line Hin) as [H1 H2]. destruct Hl; congruence.
Qed.

Lemma calculateTree_no_tree_message_witness :
  PhyloTree.calculateTree Samples.fasta Samples.silent_tool None =
  {| PhyloTree.emitted := None;
     PhyloTree.error :=
       Some (js "Unable to initialize tree calculation tool. Please check your internet connection and try again.") |}.
Proof.
  apply (calculateTree_no_tree_message Samples.fasta
           (JSString.join [10%N] [js "FastTree 2.1.11"; js "done"])
           Samples.silent_tool None).
  - discriminate.
  - reflexivity.
  - intros line Hin. vm_compute in Hin.
    destruct Hin as [<-|[<-|[]]]; vm_compute; auto.
Defined.

(** X9: a tree that calculateTree emits is never empty: it is a line of
    the tool's output, trimmed, that holds a ['('], and the error is
    cleared.  The tool was handed the stripped file. *)
Theorem calculateTree_emits_a_line (fastaContent tree : jsstring)
        (tool : jsstring -> PhyloTree.ToolRun) (error_before : option jsstring) :
  PhyloTree.emitted (PhyloTree.calculateTree fastaContent tool error_before)
    = Some tree ->
  tree <> [] /\
  PhyloTree.error (PhyloTree.calculateTree fastaContent tool error_before)
    = None /\
  exists result line,
    tool (PhyloTree.stripFastaHeaders fastaContent) = PhyloTree.Printed result /\
    In line (JSString.split 10 result) /\
    tree = JSText.trim line /\
    In 40%N line.
Proof.
  unfold PhyloTree.calculateTree.
  destruct (JSString.truthy fastaContent); cbn [negb]; [|discriminate].
  destruct (tool (PhyloTree.stripFastaHeaders fastaContent)) as [result|message];
    [|discriminate].
  destruct (JSString.truthy (PhyloTree.extractNewick result)) eqn:T;
    [|discriminate].
  cbn [PhyloTree.emitted PhyloTree.error]. intros H. injection H as <-.
  split; [now apply truthy_nonempty|]. split; [reflexivity|].
  destruct (extractNewick_line result) as [E|(line & Hin & E & Hl)].
  - rewrite E in T. discriminate.
  - exists result, line. repeat split; auto. now apply tree_line_paren.
Qed.

Lemma calculateTree_emits_a_line_witness :
  js "(A1:0.1,A2:0.2);" <> [] /\
  PhyloTree.error (PhyloTree.calculateTree Samples.fasta Samples.working_tool None)
    = None /\
  exists result line,
    Samples.working_tool (PhyloTree.stripFastaHeaders Samples.fasta)
      = PhyloTree.Printed result /\
    In line (JSString.split 10 result) /\
    js "(A1:0.1,A2:0.2);" = JSText.trim line /\
    In 40%N line.
Proof.
  apply (calculateTree_emits_a_line Samples.fasta (js "(A1:0.1,A2:0.2);")
           Samples.working_tool None).
  vm_compute. reflexivity.
Defined.

(* ================================================================== *)
(** * The colour map built by the side panel *)

Section ColorMap.

Import SidePanelEvents Reference.

Lemma generateColor_truthy (v : jsstring) :
  JSString.truthy (SidePanel.generateColor v) = true.
Proof. reflexivity. Qed.

Lemma colors_by_name_set (o : JSObject.t jsstring) (v : jsstring) :
  colors_by_name o ->
  colors_by_name (JSObject.set o v (SidePanel.generateColor v)).
Proof.
  intros I k c. rewrite get_set.
  destruct (JSString.eqb v k) eqn:E.
  - apply jseqb_eq in E. subst k. intros H. now injection H as <-.
  - apply I.
Qed.

(** One row: the value is entered when it is non-empty, not yet there and
    not the name of an inherited member. *)
Lemma color_step_cases (field : jsstring) (o : JSObject.t jsstring)
      (item : MetadataRecord) :
  colors_by_name o ->
  color_step field o item =
  match JSObject.get item field with
  | Some v =>
      if JSString.truthy v && plain_name v
         && negb (memb v (map fst o))
      then o ++ [(v, SidePanel.generateColor v)]
      else o
  | None => o
  end.
Proof.
  intros I. unfold color_step, ObjectPrototype.truthy_at, plain_name.
  destruct (JSObject.get item field) as [v|]; [|reflexivity].
  rewrite memb_get.
  destruct (JSString.truthy v); [|reflexivity]. cbn [andb].
  destruct (JSObject.get o v) as [c|] eqn:E.
  - rewrite (I v c E), generateColor_truthy.
    now rewrite andb_false_r.
  - rewrite andb_true_r.
    destruct (ObjectPrototype.inherits v); [reflexivity|].
    cbn [negb]. now apply set_new.
Qed.

Lemma colors_by_name_snoc (o : JSObject.t jsstring) (v : jsstring) :
  colors_by_name o -> JSObject.get o v = None ->
  colors_by_name (o ++ [(v, SidePanel.generateColor v)]).
Proof.
  intros I E. rewrite <- (set_new o v _ E). now apply colors_by_name_set.
Qed.

Lemma color_fold_keys (field : jsstring) (rows : list MetadataRecord)
      (o : JSObject.t jsstring) :
  colors_by_name o ->
  colors_by_name (fold_left (color_step field) rows o) /\
  map fst (fold_left (color_step field) rows o) =
  map fst o ++
  filter (fun v => negb (memb v (map fst o)))
         (first_seen (filter plain_name (field_values field rows))).
Proof.
  revert o; induction rows as [|item rows IH]; intros o I.
  - simpl. now rewrite app_nil_r.
  - cbn [fold_left]. rewrite (color_step_cases field o item I).
    change (field_values field (item :: rows))
      with (match JSObject.get item field with
            | Some v => if JSString.truthy v then [v] else []
            | None => []
            end ++ field_values field rows).
    destruct (JSObject.get item field) as [v|]; [|now apply IH].
    destruct (JSString.truthy v); [|now apply IH]. cbn [andb app filter].
    destruct (plain_name v); [|now apply IH]. cbn [andb first_seen filter].
    destruct (memb v (map fst o)) eqn:M; cbn [negb].
    + destruct (IH o I) as [I' K]. split; [exact I'|].
      rewrite K. f_equal. now rewrite filter_seen.
    + assert (E : JSObject.get o v = None).
      { rewrite memb_get in M. now destruct (JSObject.get o v). }
      destruct (IH _ (colors_by_name_snoc o v I E)) as [I' K].
      split; [exact I'|].
      rewrite K, map_app, <- app_assoc. cbn [map fst app].
      now rewrite filter_new.
Qed.

Lemma color_fold_empty (field : jsstring) (rows : list MetadataRecord) :
  colors_by_name (fold_left (color_step field) rows JSObject.empty) /\
  map fst (fold_left (color_step field) rows JSObject.empty)
  = first_seen (filter plain_name (field_values field rows)).
Proof.
  destruct (color_fold_keys field rows JSObject.empty) as [I K].
  - intros k c H. discriminate.
  - split; [exact I|]. rewrite K. cbn [JSObject.empty map app].
    apply filter_nothing_seen.
Qed.

Lemma in_field_values (field : jsstring) (rows : list MetadataRecord)
      (v : jsstring) :
  In v (field_values field rows) <->
  exists item, In item rows /\ JSObject.get item field = Some v /\ v <> [].
Proof.
  unfold field_values. rewrite in_flat_map. split.
  - intros (item & Hin & H). exists item. split; [exact Hin|].
    destruct (JSObject.get item field) as [w|] eqn:Eg; [|contradiction].
    destruct (JSString.truthy w) eqn:T; [|contradiction].
    destruct H as [H|[]]. subst w.
    split; [exact Eg|now apply truthy_nonempty].
  - intros (item & Hin & Hg & Hne). exists item. split; [exact Hin|].
    apply truthy_nonempty in Hne.
    assert (X : match JSObject.get item field with
                | Some v => if JSString.truthy v then [v] else []
                | None => []
                end = [v]) by (now rewrite Hg, Hne).
    exact (eq_ind_r (fun l => In v l) (in_eq v []) X).
Qed.

(** The colour of a value in the map. *)
Lemma color_fold_get (field : jsstring) (rows : list MetadataRecord)
      (v : jsstring) :
  JSObject.get (fold_left (color_step field) rows JSObject.empty) v =
  if memb v (filter plain_name (field_values field rows))
  then Some (SidePanel.generateColor v) else None.
Proof.
  destruct (color_fold_empty field rows) as [I K].
  destruct (JSObject.get _ v) as [c|] eqn:E.
  - rewrite (I v c E).
    assert (M : memb v (map fst (fold_left (color_step field) rows JSObject.empty))
                = true) by (now rewrite memb_get, E).
    rewrite K in M. apply (proj1 (memb_in _ _)) in M.
    apply (proj1 (first_seen_in _ _)) in M.
    apply (proj2 (memb_in _ _)) in M. now rewrite M.
  - assert (M : memb v (map fst (fold_left (color_step field) rows JSObject.empty))
                = false) by (now rewrite memb_get, E).
    rewrite K in M.
    destruct (memb v (filter plain_name (field_values field rows))) eqn:M';
      [|reflexivity].
    apply (proj1 (memb_in _ _)) in M'.
    apply (proj2 (first_seen_in _ _)) in M'.
    apply (proj2 (memb_in _ _)) in M'. congruence.
Qed.

End ColorMap.





Section Wiring.

Import Reference.

(** What the two events of handleFieldChange carry. *)
Lemma handleFieldChange_events (rows : list MetadataRecord)
      (refs : SidePanelEvents.Refs)
      (field : jsstring) (m : JSObject.t jsstring) :
  In (SidePanelEvents.update_selected_field (Some field))
     (SidePanelEvents.handleFieldChange rows refs) ->
  In (SidePanelEvents.update_color_map m)
     (SidePanelEvents.handleFieldChange rows refs) ->
  field <> [] ->
  m = fold_left (SidePanelEvents.color_step field) rows JSObject.empty.
Proof.
  unfold SidePanelEvents.handleFieldChange. intros Hs Hm Hne.
  destruct Hs as [Hs|Hs].
  - injection Hs as Hs. rewrite Hs in Hm.
    apply truthy_nonempty in Hne. rewrite Hne in Hm.
    destruct Hm as [Hm|[Hm|[]]]; [discriminate|]. now injection Hm as <-.
  - destruct (SidePanelEvents.selectedField refs) as [f|];
      [destruct (JSString.truthy f)|]; destruct Hs as [Hs|[]]; discriminate.
Qed.

Lemma in_enumeration_order (ks : list jsstring) (k : jsstring) :
  In k (Spec.enumeration_order ks) <-> In k ks.
Proof.
  unfold Spec.enumeration_order, JSObject.keys. rewrite !in_map_iff. split.
  - intros ([k' u] & <- & H). apply (proj1 (in_entries _ _)) in H.
    apply in_map_iff in H as (k0 & E & Hin). now injection E as ->.
  - intros H. exists (k, tt). split; [reflexivity|].
    apply (proj2 (in_entries _ _)). apply in_map_iff. now exists k.
Qed.




End Wiring.

(** X12: the colours the side panel emits reach the leaves.  When the
    viewer is handed the field and the colour map that handleFieldChange
    emitted for the same rows, getNodeColor gives every node whose record
    has a non-empty value for the field the colour generateColor gives that
    value (field and value not being names of Object.prototype members). *)
Theorem emitted_colors_reach_the_leaves (refs : SidePanelEvents.Refs)
        (P : Props) (field name v : jsstring) (r : MetadataRecord) :
  In (SidePanelEvents.update_selected_field (Some field))
     (SidePanelEvents.handleFieldChange (metadata P) refs) ->
  In (SidePanelEvents.update_color_map (colorMap P))
     (SidePanelEvents.handleFieldChange (metadata P) refs) ->
  selectedField P = Some field ->
  field <> [] -> ObjectPrototype.inherits field = false ->
  Spec.first_with_accession (metadata P) (extractAccessionVersion name) r ->
  JSObject.get r field = Some v ->
  v <> [] -> ObjectPrototype.inherits v = false ->
  getNodeColor P name = Some (SidePanel.generateColor v).
Proof.
  intros Hs Hm Hf Hne _ Hr Hv Hvne Hvi.
  pose proof (handleFieldChange_events _ _ _ _ Hs Hm Hne) as Em.
  assert (Hin : In r (metadata P)).
  { destruct Hr as (b & a & E & _). rewrite E. apply in_app_iff. right. now left. }
  assert (G : JSObject.get (colorMap P) v = Some (SidePanel.generateColor v)).
  { rewrite Em, color_fold_get.
    assert (M : memb v (filter Reference.plain_name
                               (Reference.field_values field (metadata P))) = true).
    { apply (proj2 (memb_in _ _)). apply filter_In. split.
      - apply in_field_values. now exists r.
      - unfold Reference.plain_name. now rewrite Hvi. }
    now rewrite M. }
  rewrite getNodeColor_cases.
  rewrite extractAccessionVersion_prefix in Hr.
  apply metadata_find_first in Hr. rewrite Hr.
  unfold Spec.record_color. rewrite Hf, Hv, G.
  apply truthy_nonempty in Hne, Hvne. rewrite Hne, Hvne, generateColor_truthy.
  destruct (JSObject.keys (colorMap P)) as [|k ks] eqn:K; [|reflexivity].
  exfalso. apply get_some_in in G.
  assert (Hk : In v (JSObject.keys (colorMap P))).
  { unfold JSObject.keys. apply in_map_iff.
    exists (v, SidePanel.generateColor v). split; [reflexivity|].
    now apply (proj2 (in_entries _ _)). }
  rewrite K in Hk. contradiction.
Qed.

Lemma emitted_colors_reach_the_leaves_witness :
  getNodeColor Examples.country_props (js "A3|S3")
  = Some (SidePanel.generateColor (js "Canada")).
Proof.
  apply (emitted_colors_reach_the_leaves Samples.country_refs
           Examples.country_props (js "Country") (js "A3|S3") (js "Canada")
           (nth 2 Examples.countries [])).
  - left. reflexivity.
  - right. left. reflexivity.
  - reflexivity.
  - discriminate.
  - reflexivity.
  - exists (firstn 2 Examples.countries), []. split; [reflexivity|].
    split; [reflexivity|].
    intros r' [<-|[<-|[]]]; vm_compute; discriminate.
  - reflexivity.
  - discriminate.
  - reflexivity.
Defined.



(* ================================================================== *)
(** * The label selection of the side panel *)

Section Labels.

Lemma Array_includes_in (array : list jsstring) (x : jsstring) :
  JSText.Array_includes array x = true <-> In x array.
Proof. apply memb_in. Qed.

Lemma in_without (field f : jsstring) (fields : list jsstring) :
  In f (filter (fun g => negb (JSString.eqb g field)) fields)
  <-> In f fields /\ f <> field.
Proof.
  rewrite filter_In, negb_true_iff, jseqb_neq. tauto.
Qed.

Lemma without_absent (field : jsstring) (fields : list jsstring) :
  ~ In field fields ->
  filter (fun g => negb (JSString.eqb g field)) fields = fields.
Proof.
  induction fields as [|g fields IH]; simpl; intros H; [reflexivity|].
  destruct (JSString.eqb g field) eqn:E.
  - apply jseqb_eq in E. subst. tauto.
  - simpl. rewrite IH by tauto. reflexivity.
Qed.

Lemma without_app (field : jsstring) (a b : list jsstring) :
  filter (fun g => negb (JSString.eqb g field)) (a ++ b)
  = filter (fun g => negb (JSString.eqb g field)) a
    ++ filter (fun g => negb (JSString.eqb g field)) b.
Proof. apply filter_app. Qed.

End Labels.

(** X14: handleLabelFieldChange keeps the selection a list without
    repetition.  Checking a field adds it at the end unless it is there,
    unchecking removes it; the other fields keep their places, the other
    refs are untouched, and the new selection is what is emitted. *)
Theorem handleLabelFieldChange_selection (field : jsstring) (checked : bool)
        (refs : SidePanelEvents.Refs) :
  let after := fst (SidePanelEvents.handleLabelFieldChange field checked refs) in
  (forall f, In f (SidePanelEvents.selectedLabelFields after) <->
             (f = field /\ checked = true) \/
             (f <> field /\ In f (SidePanelEvents.selectedLabelFields refs))) /\
  (NoDup (SidePanelEvents.selectedLabelFields refs) ->
   NoDup (SidePanelEvents.selectedLabelFields after)) /\
  filter (fun g => negb (JSString.eqb g field))
         (SidePanelEvents.selectedLabelFields after)
    = filter (fun g => negb (JSString.eqb g field))
             (SidePanelEvents.selectedLabelFields refs) /\
  SidePanelEvents.selectedField after = SidePanelEvents.selectedField refs /\
  SidePanelEvents.searchTerm after = SidePanelEvents.searchTerm refs /\
  snd (SidePanelEvents.handleLabelFieldChange field checked refs)
    = [SidePanelEvents.update_label_fields
         (SidePanelEvents.selectedLabelFields after)].
Proof.
  cbv zeta. unfold SidePanelEvents.handleLabelFieldChange.
  cbn [fst snd SidePanelEvents.selectedLabelFields
       SidePanelEvents.selectedField SidePanelEvents.searchTerm].
  set (fields := SidePanelEvents.selectedLabelFields refs).
  repeat split; try reflexivity.
  - destruct checked.
    + destruct (JSText.Array_includes fields field) eqn:I; cbn [negb].
      * apply Array_includes_in in I. intros H.
        destruct (JSString.eqb f field) eqn:E.
        -- apply jseqb_eq in E. auto.
        -- apply jseqb_neq in E. auto.
      * rewrite in_app_iff. intros [H|[H|[]]].
        -- right. split; [|exact H]. intros ->.
           apply Array_includes_in in H. congruence.
        -- left. auto.
    + intros H. apply in_without in H. right. tauto.
  - destruct checked.
    + destruct (JSText.Array_includes fields field) eqn:I; cbn [negb].
      * apply Array_includes_in in I. intros [[-> _]|[_ H]]; auto.
      * rewrite in_app_iff. intros [[-> _]|[_ H]]; simpl; auto.
    + intros [[_ H]|[Hn H]]; [discriminate|]. apply in_without. auto.
  - intros N. destruct checked.
    + destruct (JSText.Array_includes fields field) eqn:I; cbn [negb];
        [exact N|].
      apply NoDup_app; [exact N|repeat constructor; simpl; tauto|].
      intros x Hx [<-|[]]. apply Array_includes_in in Hx. congruence.
    + now apply NoDup_filter.
  - destruct checked.
    + destruct (JSText.Array_includes fields field) eqn:I; cbn [negb];
        [reflexivity|].
      rewrite without_app. simpl. rewrite jseqb_refl. simpl.
      now rewrite app_nil_r.
    + induction fields as [|g fs IH]; simpl; [reflexivity|].
      destruct (JSString.eqb g field) eqn:E; simpl; [exact IH|].
      rewrite E. simpl. now rewrite IH.
Qed.

(** X15: checking a field that is not selected and unchecking it again
    gives the selection back; unchecking a selected field and checking it
    again moves it to the end of the selection. *)
Theorem label_toggle_round_trip (field : jsstring)
        (refs : SidePanelEvents.Refs) :
  (~ In field (SidePanelEvents.selectedLabelFields refs) ->
   SidePanelEvents.selectedLabelFields
     (fst (SidePanelEvents.handleLabelFieldChange field false
             (fst (SidePanelEvents.handleLabelFieldChange field true refs))))
   = SidePanelEvents.selectedLabelFields refs) /\
  SidePanelEvents.selectedLabelFields
    (fst (SidePanelEvents.handleLabelFieldChange field true
            (fst (SidePanelEvents.handleLabelFieldChange field false refs))))
  = filter (fun g => negb (JSString.eqb g field))
           (SidePanelEvents.selectedLabelFields refs) ++ [field].
Proof.
  unfold SidePanelEvents.handleLabelFieldChange.
  cbn [fst snd SidePanelEvents.selectedLabelFields].
  set (fields := SidePanelEvents.selectedLabelFields refs).
  split.
  - intros H.
    assert (I : JSText.Array_includes fields field = false).
    { destruct (JSText.Array_includes fields field) eqn:I; [|reflexivity].
      apply Array_includes_in in I. contradiction. }
    rewrite I. cbn [negb]. rewrite without_app. simpl.
    rewrite jseqb_refl. simpl. rewrite app_nil_r. now apply without_absent.
  - assert (I : JSText.Array_includes
                  (filter (fun g => negb (JSString.eqb g field)) fields) field
                = false).
    { destruct (JSText.Array_includes _ field) eqn:I; [|reflexivity].
      apply Array_includes_in, in_without in I. tauto. }
    now rewrite I.
Qed.

(** X16: after the metadata watcher has run on a non-empty table, every
    selected label field is one of the available fields, SampleID is
    selected whenever it is available (a selection without it is replaced
    by SampleID alone), a non-empty colour field is one of the fields of
    the table, and the last thing emitted is the selection. *)
Theorem watch_metadata_keeps_selection_valid (rows : list MetadataRecord)
        (refs : SidePanelEvents.Refs) :
  rows <> [] ->
  let after := fst (SidePanelEvents.watch_metadata rows refs) in
  (forall f, In f (SidePanelEvents.selectedLabelFields after) ->
             In f (SidePanelEvents.availableLabelFields rows)) /\
  (In (js "SampleID") (SidePanelEvents.availableLabelFields rows) ->
   In (js "SampleID") (SidePanelEvents.selectedLabelFields after)) /\
  (In (js "SampleID") (SidePanelEvents.availableLabelFields rows) ->
   ~ In (js "SampleID") (SidePanelEvents.selectedLabelFields refs) ->
   SidePanelEvents.selectedLabelFields after = [js "SampleID"]) /\
  (forall f, SidePanelEvents.selectedField after = Some f -> f <> [] ->
             In f (SidePanelEvents.metadataFields rows)) /\
  exists emits,
    snd (SidePanelEvents.watch_metadata rows refs)
    = emits ++ [SidePanelEvents.update_label_fields
                  (SidePanelEvents.selectedLabelFields after)].
Proof.
  intros Hne. cbv zeta. unfold SidePanelEvents.watch_metadata.
  assert (L : (0 <? List.length rows) = true)
    by (destruct rows; [congruence|reflexivity]).
  rewrite L.
  set (first := match SidePanelEvents.selectedField refs with
                | Some field =>
                    if JSString.truthy field
                       && negb (JSText.Array_includes
                                  (SidePanelEvents.metadataFields rows) field)
                    then _ else _
                | None => _
                end).
  assert (F : SidePanelEvents.selectedLabelFields (fst first)
              = SidePanelEvents.selectedLabelFields refs /\
              forall f, SidePanelEvents.selectedField (fst first) = Some f ->
                        f <> [] -> In f (SidePanelEvents.metadataFields rows)).
  { subst first. destruct (SidePanelEvents.selectedField refs) as [g|] eqn:Eg.
    - destruct (JSString.truthy g) eqn:Tg; cbn [andb].
      + destruct (JSText.Array_includes _ g) eqn:I; cbn [negb fst].
        * split; [reflexivity|]. intros f Hf Hn. rewrite Eg in Hf.
          injection Hf as <-. now apply Array_includes_in.
        * split; [reflexivity|]. discriminate.
      + cbn [fst]. split; [reflexivity|]. intros f Hf Hn. rewrite Eg in Hf.
        injection Hf as <-. apply truthy_nonempty in Hn. congruence.
    - cbn [fst]. split; [reflexivity|]. intros f Hf. congruence. }
  destruct first as [refs1 emits]. cbn [fst] in F. destruct F as [F1 F2].
  cbn [fst snd SidePanelEvents.selectedLabelFields SidePanelEvents.selectedField].
  rewrite F1.
  set (available := SidePanelEvents.availableLabelFields rows).
  split; [|split; [|split; [|split]]].
  - intros f H. apply filter_In in H as [_ H]. now apply Array_includes_in.
  - intros H. apply filter_In.
    pose proof (proj2 (Array_includes_in available (js "SampleID")) H) as I.
    split; [|exact I]. rewrite I. cbn [andb].
    destruct (JSText.Array_includes (SidePanelEvents.selectedLabelFields refs)
                                    (js "SampleID")) eqn:S; cbn [negb].
    + now apply Array_includes_in.
    + now left.
  - intros H N.
    pose proof (proj2 (Array_includes_in available (js "SampleID")) H) as I.
    rewrite I. cbn [andb].
    assert (S : JSText.Array_includes
                  (SidePanelEvents.selectedLabelFields refs) (js "SampleID")
                = false).
    { destruct (JSText.Array_includes (SidePanelEvents.selectedLabelFields refs)
                                      (js "SampleID")) eqn:S; [|reflexivity].
      apply Array_includes_in in S. contradiction. }
    rewrite S. cbn [negb filter]. now rewrite I.
  - exact F2.
  - now exists emits.
Qed.

Lemma watch_metadata_keeps_selection_valid_witness :
  let after := fst (SidePanelEvents.watch_metadata Examples.years
                      Samples.country_refs) in
  (forall f, In f (SidePanelEvents.selectedLabelFields after) ->
             In f (SidePanelEvents.availableLabelFields Examples.years)) /\
  (In (js "SampleID") (SidePanelEvents.availableLabelFields Examples.years) ->
   In (js "SampleID") (SidePanelEvents.selectedLabelFields after)) /\
  (In (js "SampleID") (SidePanelEvents.availableLabelFields Examples.years) ->
   ~ In (js "SampleID")
        (SidePanelEvents.selectedLabelFields Samples.country_refs) ->
   SidePanelEvents.selectedLabelFields after = [js "SampleID"]) /\
  (forall f, SidePanelEvents.selectedField after = Some f -> f <> [] ->
             In f (SidePanelEvents.metadataFields Examples.years)) /\
  exists emits,
    snd (SidePanelEvents.watch_metadata Examples.years Samples.country_refs)
    = emits ++ [SidePanelEvents.update_label_fields
                  (SidePanelEvents.selectedLabelFields after)].
Proof.
  apply (watch_metadata_keeps_selection_valid Examples.years
           Samples.country_refs).
  discriminate.
Defined.

(* ================================================================== *)
(** * The tooltip session *)

Section Session.

Import TooltipSession TooltipEvents Reference.

Variable P : Props.

Lemma settled_dispatch (tip : Tooltip) (e : Event) :
  settled tip -> settled (dispatch P tip e).
Proof.
  intros [D V]. unfold settled.
  destruct e as [rect node x y| | |c| |x y|x y|]; cbn [dispatch].
  - unfold showNodeTooltip. destruct rect as [[l t]|]; [|auto].
    destruct (node_isLeaf node); cbn; (split; [exact D|]);
      split; intros; congruence.
  - unfold hideNodeTooltip; cbn. split; [auto|]. split; congruence.
  - unfold hideNodeTooltip; cbn. split; [auto|]. split; congruence.
  - unfold toggleNodeCollapse. destruct (tip_node tip) as [n|] eqn:En.
    + destruct (node_isLeaf n); [|destruct c as [[u|]|]]; cbn;
        rewrite ?En; (split; [exact D|exact V]).
    + rewrite En. split; [exact D|exact V].
  - unfold hideNodeTooltip; cbn. split; [auto|]. split; congruence.
  - unfold startDrag, set_drag; cbn. split; [discriminate|exact V].
  - unfold onDrag. destruct (isDragging tip) eqn:E; cbn [negb]; [|auto].
    unfold set_drag; cbn. split; [discriminate|exact V].
  - unfold stopDrag. destruct (isDragging tip) eqn:E; cbn [negb]; [|auto].
    cbn. split; [auto|exact V].
Qed.

Lemma settled_fold (events : list Event) (tip : Tooltip) :
  settled tip -> settled (fold_left (dispatch P) events tip).
Proof.
  revert tip; induction events as [|e events IH]; intros tip H; simpl;
    [exact H|].
  apply IH. now apply settled_dispatch.
Qed.


End Session.

(** X17: whatever sequence of clicks, timers and mouse events reaches the
    tooltip session, a session that is not being dragged has no pending
    drag offset, so that it is drawn at its base position, and the session
    is visible exactly when it holds a node. *)
Theorem tooltip_session_settled (P : Props)
        (events : list TooltipEvents.Event) :
  (isDragging (TooltipEvents.run P events) = false ->
   dragOffsetX (TooltipEvents.run P events) = 0%Q /\
   dragOffsetY (TooltipEvents.run P events) = 0%Q) /\
  (visible (TooltipEvents.run P events) = true <->
   tip_node (TooltipEvents.run P events) <> None).
Proof.
  apply (settled_fold P events TooltipEvents.initial).
  split; [auto|]. split; [discriminate|]. intros H. now elim H.
Qed.




(** X20: getDescendantLeaves returns nodes flagged as leaves only; a node
    flagged as a leaf gives itself whatever children it has, and a node
    that is not gives the leaves of its children, child after child. *)
Theorem getDescendantLeaves_only_leaves (node : TreeNode) :
  Forall (fun leaf => node_isLeaf leaf = true) (getDescendantLeaves node) /\
  (node_isLeaf node = true -> getDescendantLeaves node = [node]) /\
  (node_isLeaf node = false ->
   getDescendantLeaves node =
   match node_children node with
   | Some children => flat_map getDescendantLeaves children
   | None => []
   end).
Proof.
  split; [|split].
  - rewrite getDescendantLeaves_leaves_of.
    induction node as [id label isLeaf collapsed children IH]
      using TreeNode_induction.
    destruct isLeaf; [repeat constructor|].
    destruct children as [cs|]; [|constructor].
    simpl. induction IH as [|c rest Hc _ IHrest]; simpl; [constructor|].
    apply Forall_app. auto.
  - destruct node as [i l b c cs]. simpl. now intros ->.
  - destruct node as [i l b c cs]. cbn [node_isLeaf node_children].
    intros ->. rewrite getDescendantLeaves_leaves_of.
    destruct cs as [cs|]; [|reflexivity]. simpl.
    apply flat_map_ext. intros a. now rewrite getDescendantLeaves_leaves_of.
Qed.





(** X23: the number generateColor derives the hue from is computed
    without rounding for every string of up to 2^20 code units, and its
    low 32 bits are those of the polynomial in 31 over the code units. *)
Theorem hash_loop_exact_polynomial (str : jsstring) :
  SidePanel.ToInt32 (SidePanel.hash_loop str)
    = SidePanel.ToInt32 (Spec.poly31 str) /\
  (JSString.wf str -> (List.length str <= 2 ^ 20)%nat ->
   (Z.abs (SidePanel.hash_loop str) < 2 ^ 53)%Z).
Proof.
  rewrite hash_loop_fold. split.
  - apply rolling_hash_poly31.
  - apply rolling_hash_exact.
Qed.

(** X24: every record of a parsed table owns every field the side panel
    offers for the table, so that reading a chosen field from a row never
    falls through to Object.prototype. *)
Theorem parsed_rows_own_every_field (tsv field : jsstring) (row : MetadataRecord) :
  In row (TsvParser.parseTsv tsv) ->
  In field (SidePanelEvents.metadataFields (TsvParser.parseTsv tsv)) ->
  exists v, JSObject.get row field = Some v.
Proof.
  intros Hrow Hfield. unfold SidePanelEvents.metadataFields in Hfield.
  pose proof (parsed_row_keys tsv row Hrow) as Krow.
  destruct (TsvParser.parseTsv tsv) as [|first rows] eqn:E; [contradiction|].
  cbn [List.length Nat.ltb Nat.leb nth] in Hfield.
  rewrite keys_enumeration_order in Hfield.
  apply (proj1 (in_enumeration_order _ _)) in Hfield.
  rewrite (parsed_row_keys tsv first), <- Krow in Hfield
    by (rewrite E; now left).
  destruct (JSObject.get row field) as [v|] eqn:G; [now exists v|].
  apply get_none_keys in G. contradiction.
Qed.

Lemma parsed_rows_own_every_field_witness :
  exists v,
    JSObject.get [(js "accessionVersion", js "A1"); (js "Country", js "Canada")]
                 (js "Country") = Some v.
Proof.
  apply (parsed_rows_own_every_field Samples.table (js "Country")
           [(js "accessionVersion", js "A1"); (js "Country", js "Canada")]).
  - vm_compute. left. reflexivity.
  - vm_compute. right. left. reflexivity.
Defined.
